(** * Striper: a shallow embedding of the Stripe-method analyser

    The development follows [app/stripe.py] and [app/openai_client.py].
    Python [str] values are sequences of Unicode code points, modelled as
    [list N]; Python [float] values are IEEE binary64 numbers, modelled by
    Rocq's primitive floats; Python [set[int]] values are [gset nat]. *)

From Stdlib Require Import Strings.String Strings.Ascii.
From Stdlib Require Import ZArith Lia Floats.
From stdpp Require Import base list gmap sets sorting.

Set Warnings "-inexact-float".
Local Open Scope N_scope.

(* ------------------------------------------------------------------ *)
(** ** Python strings *)

Definition pychar := N.
Definition pystr := list pychar.

(** An ASCII Rocq literal read as a Python string. *)
Definition lit (x : string) : pystr :=
  map N_of_ascii (list_ascii_of_string x).

Definition in_ranges (rs : list (N * N)) (c : pychar) : bool :=
  existsb (fun r => (r.1 <=? c) && (c <=? r.2)) rs.

(** [str.isspace] on one character, which is also what [\s] matches in a
    [str] regular expression (Unicode database of CPython 3.11). *)
Definition py_isspace (c : pychar) : bool :=
  in_ranges [(9, 13); (28, 32); (133, 133); (160, 160); (5760, 5760);
             (8192, 8202); (8232, 8233); (8239, 8239); (8287, 8287);
             (12288, 12288)] c.

(** What [\d] matches in a [str] regular expression: the Unicode decimal
    digits (general category Nd). *)
Definition py_isdecimal (c : pychar) : bool :=
  in_ranges
    [(48, 57); (1632, 1641); (1776, 1785); (1984, 1993); (2406, 2415);
     (2534, 2543); (2662, 2671); (2790, 2799); (2918, 2927); (3046, 3055);
     (3174, 3183); (3302, 3311); (3430, 3439); (3558, 3567); (3664, 3673);
     (3792, 3801); (3872, 3881); (4160, 4169); (4240, 4249); (6112, 6121);
     (6160, 6169); (6470, 6479); (6608, 6617); (6784, 6793); (6800, 6809);
     (6992, 7001); (7088, 7097); (7232, 7241); (7248, 7257); (42528, 42537);
     (43216, 43225); (43264, 43273); (43472, 43481); (43504, 43513);
     (43600, 43609); (44016, 44025); (65296, 65305); (66720, 66729);
     (68912, 68921); (69734, 69743); (69872, 69881); (69942, 69951);
     (70096, 70105); (70384, 70393); (70736, 70745); (70864, 70873);
     (71248, 71257); (71360, 71369); (71472, 71481); (71904, 71913);
     (72016, 72025); (72784, 72793); (73040, 73049); (73120, 73129);
     (92768, 92777); (92864, 92873); (93008, 93017); (120782, 120831);
     (123200, 123209); (123632, 123641); (125264, 125273);
     (130032, 130041)] c.

Fixpoint lstrip (s : pystr) : pystr :=
  match s with
  | [] => []
  | c :: r => if py_isspace c then lstrip r else s
  end.

Definition rstrip (s : pystr) : pystr := rev (lstrip (rev s)).

(** [s.strip()] *)
Definition strip (s : pystr) : pystr := rstrip (lstrip s).

(** [s.split(sep)] for a one-character separator: the pieces between the
    occurrences of [sep], so [""] splits to [[""]]. *)
Fixpoint split_go (sep : pychar) (s : pystr) (cur : pystr) : list pystr :=
  match s with
  | [] => [rev cur]
  | c :: r =>
      if c =? sep then rev cur :: split_go sep r []
      else split_go sep r (c :: cur)
  end.

Definition py_split (sep : pychar) (s : pystr) : list pystr :=
  split_go sep s [].

(** [sep.join(l)] *)
Fixpoint py_join (sep : pystr) (l : list pystr) : pystr :=
  match l with
  | [] => []
  | [x] => x
  | x :: r => x ++ sep ++ py_join sep r
  end.

Definition newline : pychar := 10.
Definition space : pystr := [32].

(* ------------------------------------------------------------------ *)
(** ** [parse_components] *)

Definition ch_dash : pychar := 45.    (* - *)
Definition ch_bullet : pychar := 8226. (* U+2022 BULLET *)
Definition ch_star : pychar := 42.    (* * *)
Definition ch_dot : pychar := 46.     (* . *)
Definition ch_rpar : pychar := 41.    (* ) *)
Definition ch_bang : pychar := 33.    (* ! *)
Definition ch_quest : pychar := 63.   (* ? *)

(** Longest prefix of decimal digits and the rest. *)
Fixpoint span_decimal (s : pystr) : pystr * pystr :=
  match s with
  | c :: r =>
      if py_isdecimal c then let '(d, t) := span_decimal r in (c :: d, t)
      else ([], s)
  | [] => ([], [])
  end.

(** First alternative of [_LIST_MARKER_RE], [^\s*[-•*]], at the start of
    the string.  The class holds no whitespace, so letting [\s*] take the
    whole whitespace run loses no match. *)
Definition marker_bullet (s : pystr) : bool :=
  match lstrip s with
  | c :: _ => (c =? ch_dash) || (c =? ch_bullet) || (c =? ch_star)
  | [] => false
  end.

(** Second alternative, [\s*\d+[.)]\s], at the start of the string
    ([re.match] anchors it).  [.] and [)] are no digits, so [\d+] must take
    the whole digit run. *)
Definition marker_numeric (s : pystr) : bool :=
  let '(ds, t) := span_decimal (lstrip s) in
  match ds, t with
  | _ :: _, p :: w :: _ => ((p =? ch_dot) || (p =? ch_rpar)) && py_isspace w
  | _, _ => false
  end.

(** [_LIST_MARKER_RE.match(line)] is not [None]. *)
Definition list_marker_match (s : pystr) : bool :=
  marker_bullet s || marker_numeric s.

Definition is_sentence_end (c : pychar) : bool :=
  (c =? ch_dot) || (c =? ch_bang) || (c =? ch_quest).

(** [re.split(r"(?<=[.!?])\s+", line)].  [prev] says whether the
    character before the current position is one of [.!?] (the
    look-behind); [in_sep] says that a separator match is being extended
    (the greedy [\s+]); [cur] is the current piece, reversed. *)
Fixpoint sentence_split_go (s : pystr) (prev in_sep : bool) (cur : pystr)
    : list pystr :=
  match s with
  | [] => [rev cur]
  | c :: r =>
      if in_sep then
        if py_isspace c then sentence_split_go r false true cur
        else sentence_split_go r (is_sentence_end c) false [c]
      else if prev && py_isspace c then rev cur :: sentence_split_go r false true []
      else sentence_split_go r (is_sentence_end c) false (c :: cur)
  end.

Definition sentence_split (line : pystr) : list pystr :=
  sentence_split_go line false false [].

(** The loop body of [parse_components] for one line. *)
Definition line_components (line : pystr) : list pystr :=
  if list_marker_match line then [line]
  else filter (fun p => p ≠ []) (map strip (sentence_split line)).

Definition parse_components (prompt : pystr) : list pystr :=
  let lines := map strip (filter (fun l => strip l ≠ []) (py_split newline prompt)) in
  let components := flat_map line_components lines in
  match components with
  | [] => if bool_decide (strip prompt = []) then [] else [strip prompt]
  | _ => components
  end.

Close Scope N_scope.

(* ------------------------------------------------------------------ *)
(** ** Python floats *)

(** [sum(xs)] over floats: CPython 3.11 starts from the integer [0], whose
    sum with the first float is [0.0 + x], and adds left to right. *)
Definition py_sum (xs : list float) : float :=
  fold_left PrimFloat.add xs 0%float.

(** [min(a, b)] and [max(a, b)] keep the first argument unless the second
    is strictly smaller (larger). *)
Definition py_min (a b : float) : float := if PrimFloat.ltb b a then b else a.
Definition py_max (a b : float) : float := if PrimFloat.ltb a b then b else a.

(** [len(xs)] as a float ([int / int] is correctly rounded true division;
    the counts here stay far below [2^53]). *)
Definition float_of_nat (n : nat) : float :=
  PrimFloat.of_uint63 (Uint63.of_Z (Z.of_nat n)).

(** [x / 100] rounded to an integer, ties to even, for [x >= 0]. *)
Definition round_half_even (n d : Z) : Z :=
  let '(q, r) := Z.div_eucl n d in
  match Z.compare (2 * r) d with
  | Lt => q
  | Gt => q + 1
  | Eq => if Z.even q then q else q + 1
  end.

(** [round(x, 2)]: CPython rounds the exact value of [x] to two decimals
    (ties to even) and reads the decimal back with correct rounding.  For a
    finite [x = (-1)^s * m * 2^e] the decimal is [z / 100] with
    [z = round_half_even (m * 100 * 2^e)], and the float is the correctly
    rounded quotient [z / 100]. *)
Definition py_round2 (x : float) : float :=
  match Prim2SF x with
  | S754_finite s m e =>
      let n := (Zpos m * 100)%Z in
      let z := if (0 <=? e)%Z then (n * 2 ^ e)%Z
               else round_half_even n (2 ^ (- e))%Z in
      match z with
      | Zpos p =>
          SF2Prim
            (let '(mz, ez, lz) := SFdiv_core_binary FloatOps.prec FloatOps.emax
                                    (Zpos p) 0 100 0 in
             binary_round_aux FloatOps.prec FloatOps.emax s mz ez lz)
      | _ => SF2Prim (S754_zero s)
      end
  | _ => x
  end.

(* ------------------------------------------------------------------ *)
(** ** [cosine_similarity] (openai_client.py) *)

(** [x ** 0.5] is modelled as the correctly rounded square root. *)
Definition cosine_similarity (a b : list float) : float :=
  let dot := py_sum (map (fun xy => PrimFloat.mul xy.1 xy.2) (zip a b)) in
  let norm_a := PrimFloat.sqrt (py_sum (map (fun x => PrimFloat.mul x x) a)) in
  let norm_b := PrimFloat.sqrt (py_sum (map (fun x => PrimFloat.mul x x) b)) in
  if PrimFloat.eqb norm_a 0%float || PrimFloat.eqb norm_b 0%float then 0%float
  else PrimFloat.div dot (PrimFloat.mul norm_a norm_b).

(* ------------------------------------------------------------------ *)
(** ** [_get_similarity_threshold] *)

Definition DEFAULT_SIMILARITY_THRESHOLD : float := 0.92%float.

Section Threshold.
(** [float(raw)]: [None] when Python raises [ValueError]. *)
Variable parse_float : pystr -> option float.

(** [env] is [os.getenv("SIMILARITY_THRESHOLD")]; the default string is
    [str(0.92)]. *)
Definition get_similarity_threshold (env : option pystr) : float :=
  let raw := default (lit "0.92") env in
  match parse_float raw with
  | Some v => py_max 0%float (py_min 1%float v)
  | None => DEFAULT_SIMILARITY_THRESHOLD
  end.
End Threshold.

(* ------------------------------------------------------------------ *)
(** ** The prompt template ([_build_full_prompt]) *)

Definition EXECUTION_TASK_INTRO : pystr :=
  lit "Below are instructions for an AI assistant. "
  ++ lit "Imagine you are that assistant. Produce a SHORT sample response (2-3 sentences) ".
Definition EXECUTION_TASK_DEFAULT_INPUT : pystr :=
  lit "as you would reply to a user asking 'What can you help me with?' ".
Definition EXECUTION_TASK_OUTRO : pystr :=
  lit "Follow the instructions exactly." ++ [newline; newline] ++ lit "---"
  ++ [newline; newline].

(** Python truthiness of an optional string. *)
Definition truthy (o : option pystr) : bool :=
  match o with Some (_ :: _) => true | _ => false end.

Definition build_full_prompt (prompt_text : pystr) (user_input : option pystr) : pystr :=
  if truthy user_input then
    EXECUTION_TASK_INTRO ++ lit "The user has sent you the following input. Respond to it. "
    ++ EXECUTION_TASK_OUTRO ++ prompt_text ++ [newline; newline] ++ lit "User input:"
    ++ [newline] ++ default [] user_input
  else EXECUTION_TASK_INTRO ++ EXECUTION_TASK_DEFAULT_INPUT ++ EXECUTION_TASK_OUTRO
       ++ prompt_text.

(* ------------------------------------------------------------------ *)
(** ** Result assembly helpers *)

Record AnalysisResult := {
  over_engineered_score : float;
  improved_prompt : pystr;
  components_removed : list pystr;
  components_kept : list pystr;
  total_components : nat
}.

Definition build_analysis_result (score : float) (improved : pystr)
    (removed kept : list pystr) (total : nat) : AnalysisResult :=
  {| over_engineered_score := py_round2 score; improved_prompt := improved;
     components_removed := removed; components_kept := kept;
     total_components := total |}.

(** [enumerate(components)] *)
Definition enumerate {A} (l : list A) : list (nat * A) := zip (seq 0 (length l)) l.

Definition classify_components (components : list pystr) (redundant : gset nat)
    : list pystr * list pystr :=
  (map snd (filter (fun ic => ic.1 ∉ redundant) (enumerate components)),
   map snd (filter (fun ic => ic.1 ∈ redundant) (enumerate components))).

Definition build_improved_prompt (kept : list pystr) (fallback : pystr) : pystr :=
  match kept with [] => fallback | _ => py_join space kept end.

(** [sorted(s)] for a set of integers. *)
Definition py_sorted (s : gset nat) : list nat := merge_sort (≤)%nat (elements s).

(** [components[i]]; every index used by the analysis is in range. *)
Definition comp_at (components : list pystr) (i : nat) : pystr :=
  default [] (components !! i).

(** [" ".join(components[i] for i in sorted(s))] *)
Definition render (components : list pystr) (s : gset nat) : pystr :=
  py_join space (map (comp_at components) (py_sorted s)).

(* ------------------------------------------------------------------ *)
(** ** Clients and the oracle (openai_client.py) *)

Inductive Client :=
| OpenRouterClient (key : pystr)   (** [OpenAI(api_key=k, base_url=OPENROUTER_BASE_URL)] *)
| OpenAIClient (key : pystr).      (** [OpenAI(api_key=k)] *)

Inductive Err :=
| ConfigError   (** [ValueError("Set OPENROUTER_API_KEY or OPENAI_API_KEY ...")] *)
| OracleError.  (** a failure of the provider call *)

Record Env := {
  OPENROUTER_API_KEY : option pystr;
  OPENAI_API_KEY : option pystr;
  SIMILARITY_THRESHOLD : option pystr
}.

(** The process-wide [_client] and the default resolution of [get_client]. *)
Definition get_client (env : Env) (cache : option Client)
    : (Err + Client) * option Client :=
  match cache with
  | Some c => (inr c, cache)
  | None =>
      if truthy (OPENROUTER_API_KEY env) then
        let c := OpenRouterClient (default [] (OPENROUTER_API_KEY env)) in (inr c, Some c)
      else if truthy (OPENAI_API_KEY env) then
        let c := OpenAIClient (default [] (OPENAI_API_KEY env)) in (inr c, Some c)
      else (inl ConfigError, None)
  end.

(** [_resolve_client(api_key)]: [OpenAI(api_key=api_key) if api_key else get_client()]. *)
Definition resolve_client (env : Env) (api_key : option pystr) (cache : option Client)
    : (Err + Client) * option Client :=
  if truthy api_key then (inr (OpenAIClient (default [] api_key)), cache)
  else get_client env cache.

(** One provider round trip, with its outcome. *)
Inductive Event :=
| Complete (c : Client) (prompt : pystr) (out : option pystr)
| Embed (c : Client) (text : pystr) (out : option (list float)).

(* ------------------------------------------------------------------ *)
(** ** The analysis ([run_stripe_analysis]) *)

Section Analysis.
(** The providers, as black boxes with a state of their own: a result, or
    [None] when the call fails.  [complete] returns
    [response.choices[0].message.content or ""]. *)
Variable Oracle : Type.
Variable complete : Oracle -> Client -> pystr -> option (pystr * Oracle).
Variable embed : Oracle -> Client -> pystr -> option (list float * Oracle).
(** [float(s)], [None] on [ValueError]. *)
Variable parse_float : pystr -> option float.
(** The process environment, unchanged during a run. *)
Variable env : Env.

Record St := mkSt {
  st_oracle : Oracle;
  st_client : option Client;   (** the global [_client] *)
  st_log : list Event          (** every provider round trip, in order *)
}.

(** Python code raising an exception: a state and error monad. *)
Definition M (A : Type) : Type := St -> (Err + A) * St.

Definition ret {A} (a : A) : M A := fun s => (inr a, s).
Definition bind {A B} (m : M A) (f : A -> M B) : M B :=
  fun s => match m s with
           | (inl e, s') => (inl e, s')
           | (inr a, s') => f a s'
           end.

Local Notation "x <- m ;; k" := (bind m (fun x => k))
  (at level 100, m at next level, right associativity).

Definition resolveM (api_key : option pystr) : M Client :=
  fun s => let '(r, c) := resolve_client env api_key (st_client s) in
           (r, mkSt (st_oracle s) c (st_log s)).

Definition call_model (prompt : pystr) (api_key : option pystr) : M pystr :=
  c <- resolveM api_key ;;
  fun s =>
    match complete (st_oracle s) c prompt with
    | Some (out, o) => (inr out, mkSt o (st_client s) (st_log s ++ [Complete c prompt (Some out)]))
    | None => (inl OracleError, mkSt (st_oracle s) (st_client s) (st_log s ++ [Complete c prompt None]))
    end.

Definition get_embedding (text : pystr) (api_key : option pystr) : M (list float) :=
  c <- resolveM api_key ;;
  fun s =>
    match embed (st_oracle s) c text with
    | Some (v, o) => (inr v, mkSt o (st_client s) (st_log s ++ [Embed c text (Some v)]))
    | None => (inl OracleError, mkSt (st_oracle s) (st_client s) (st_log s ++ [Embed c text None]))
    end.

Section Run.
Variables (components : list pystr) (baseline : list float) (threshold : float)
          (user_input api_key : option pystr).

Definition test_removal_similarity (remove_index : nat) (active : gset nat) : M float :=
  let remaining := py_sorted (active ∖ {[remove_index]}) in
  match remaining with
  | [] => ret 0%float
  | _ =>
      let stripped_prompt := py_join space (map (comp_at components) remaining) in
      let stripped_full := build_full_prompt stripped_prompt user_input in
      out <- call_model stripped_full api_key ;;
      emb <- get_embedding out api_key ;;
      ret (cosine_similarity baseline emb)
  end.

Definition validate_prompt (prompt_text : pystr) : M float :=
  let full := build_full_prompt prompt_text user_input in
  out <- call_model full api_key ;;
  emb <- get_embedding out api_key ;;
  ret (cosine_similarity baseline emb).

(** Phase 1: [for i in reversed(range(n))], discarding [i] when
    [sim >= threshold]. *)
Fixpoint phase1 (idxs : list nat) (active : gset nat) : M (gset nat) :=
  match idxs with
  | [] => ret active
  | i :: rest =>
      sim <- test_removal_similarity i active ;;
      phase1 rest (if PrimFloat.leb threshold sim then active ∖ {[i]} else active)
  end.

(** Phase 3: [for idx in sorted(redundant_indices)], adding [idx] back and
    stopping at the first [validation_sim >= threshold]. *)
Fixpoint recovery (idxs : list nat) (active : gset nat) : M (gset nat) :=
  match idxs with
  | [] => ret active
  | idx :: rest =>
      let active' := {[idx]} ∪ active in
      sim <- validate_prompt (render components active') ;;
      if PrimFloat.leb threshold sim then ret active' else recovery rest active'
  end.

(** The guard of Phase 3: [if validation_sim < threshold and
    redundant_indices:]; without recovery the active set stays. *)
Definition phase3 (validation_sim : float) (redundant active : gset nat)
    : M (gset nat) :=
  if PrimFloat.ltb validation_sim threshold && bool_decide (redundant ≠ ∅) then
    recovery (py_sorted redundant) active
  else ret active.
End Run.

(** Lines 201-212: the lists, the improved prompt and the score of the
    final redundant set (without recovery, the Phase-2 values, which are
    the same function of the same set). *)
Definition finish (components : list pystr) (prompt : pystr) (redundant : gset nat)
    : AnalysisResult :=
  let n := length components in
  let '(kept, removed) := classify_components components redundant in
  let score := match components with
               | [] => 0%float
               | _ => PrimFloat.div (float_of_nat (size redundant)) (float_of_nat n)
               end in
  build_analysis_result score (build_improved_prompt kept prompt) removed kept n.

Definition run_stripe_analysis (prompt : pystr) (user_input api_key : option pystr)
    : M AnalysisResult :=
  let components := parse_components prompt in
  let n := length components in
  match components with
  | [] => ret (build_analysis_result 0%float prompt [] [] 0)
  | _ =>
      let full_prompt := build_full_prompt prompt user_input in
      baseline_output <- call_model full_prompt api_key ;;
      baseline <- get_embedding baseline_output api_key ;;
      let threshold := get_similarity_threshold parse_float (SIMILARITY_THRESHOLD env) in
      active <- phase1 components baseline threshold user_input api_key
                  (rev (seq 0 n)) (set_seq 0 n) ;;
      let redundant := set_seq 0 n ∖ active in
      let '(kept, _) := classify_components components redundant in
      validation_sim <- validate_prompt baseline user_input api_key
                          (build_improved_prompt kept prompt) ;;
      active' <- phase3 components baseline threshold user_input api_key
                   validation_sim redundant active ;;
      ret (finish components prompt (set_seq 0 n ∖ active'))
  end.
End Analysis.

Arguments st_oracle {Oracle}.
Arguments st_client {Oracle}.
Arguments st_log {Oracle}.
Arguments mkSt {Oracle}.
Arguments ret {Oracle A}.
Arguments bind {Oracle A B}.

(* ------------------------------------------------------------------ *)
(** ** A scripted provider, as in the unit tests *)

(** [call_model] answers a fixed text; [get_embedding] answers the next
    vector of a script. *)
Definition script_complete (o : list (list float)) (_ : Client) (_ : pystr)
    : option (pystr * list (list float)) := Some (lit "sample output", o).

Definition script_embed (o : list (list float)) (_ : Client) (_ : pystr)
    : option (list float * list (list float)) :=
  match o with v :: r => Some (v, r) | [] => None end.

Definition script_parse (s : pystr) : option float :=
  if bool_decide (s = lit "0.92") then Some 0.92%float
  else if bool_decide (s = lit "0.95") then Some 0.95%float
  else if bool_decide (s = lit "0") then Some 0%float
  else None.

Definition test_env (thr : option pystr) : Env :=
  {| OPENROUTER_API_KEY := None; OPENAI_API_KEY := Some (lit "sk-test");
     SIMILARITY_THRESHOLD := thr |}.

Definition run_script (thr : option pystr) (script : list (list float)) (prompt : pystr)
    : (Err + AnalysisResult) * St (list (list float)) :=
  run_stripe_analysis (list (list float)) script_complete script_embed script_parse
    (test_env thr) prompt None None (mkSt script None []).

Definition e1 : list float := [1; 0; 0]%float.
Definition e2 : list float := [0; 1; 0]%float.

(* ------------------------------------------------------------------ *)
(** ** Observing the provider log *)

(** One provider round trip that succeeded: a completion of [p], then the
    embedding of that completion's text, here with similarity [sim] to the
    baseline [base]. *)
Definition roundtrip (base : list float) (p : pystr) (sim : float) (evs : list Event) : Prop :=
  exists c o c' v, evs = [Complete c p (Some o); Embed c' o (Some v)] /\
                   sim = cosine_similarity base v.

Definition trip_for (p : pystr) (evs : list Event) : Prop :=
  exists c o c' v, evs = [Complete c p (Some o); Embed c' o (Some v)].

Definition trip (evs : list Event) : Prop :=
  exists c p o c' v, evs = [Complete c p (Some o); Embed c' o (Some v)].

(** What a round trip of [p] leaves in the log when it raises. *)
Definition partial_trip (p : pystr) (evs : list Event) : Prop :=
  evs = [] \/ (exists c, evs = [Complete c p None]) \/
  (exists c o, evs = [Complete c p (Some o)]) \/
  (exists c o c', evs = [Complete c p (Some o); Embed c' o None]).

(** Greedy recovery as the spec words it: restore the removed indices one
    at a time, in the order given, re-validate the whole candidate after
    each restoration, and stop at the first similarity [>= thr] or when
    every index is restored.  [restores active idxs evs fin]: starting from
    [active], the log [evs] is produced and [fin] is the final set. *)
Inductive restores (base : list float) (thr : float) (comps : list pystr) (ui : option pystr)
    : gset nat -> list nat -> list Event -> gset nat -> Prop :=
| restores_stop active r rs evs sim :
    roundtrip base (build_full_prompt (render comps ({[r]} ∪ active)) ui) sim evs ->
    PrimFloat.leb thr sim = true ->
    restores base thr comps ui active (r :: rs) evs ({[r]} ∪ active)
| restores_all active r evs sim :
    roundtrip base (build_full_prompt (render comps ({[r]} ∪ active)) ui) sim evs ->
    PrimFloat.leb thr sim = false ->
    restores base thr comps ui active [r] evs ({[r]} ∪ active)
| restores_next active r rs evs evs' sim fin :
    roundtrip base (build_full_prompt (render comps ({[r]} ∪ active)) ui) sim evs ->
    PrimFloat.leb thr sim = false ->
    restores base thr comps ui ({[r]} ∪ active) rs evs' fin ->
    restores base thr comps ui active (r :: rs) (evs ++ evs') fin.

Definition is_complete (e : Event) : bool := match e with Complete _ _ _ => true | _ => false end.
Definition is_embed (e : Event) : bool := match e with Embed _ _ _ => true | _ => false end.

Definition count_complete (evs : list Event) : nat := length (List.filter is_complete evs).
Definition count_embed (evs : list Event) : nat := length (List.filter is_embed evs).

(** What Phase 1 leaves in the log: one round trip per test at most. *)
Definition phase1_post (idxs : list nat) (active : gset nat)
    (r : Err + gset nat) (evs : list Event) : Prop :=
  match r with
  | inr a' => a' ⊆ active /\
              exists L, evs = concat L /\ length L <= length idxs /\ Forall trip L
  | inl _ => exists L part p, evs = concat L ++ part /\ length L < length idxs /\
                              Forall trip L /\ partial_trip p part
  end.

(** What a recovery leaves in the log, and the set it ends with. *)
Definition recovery_post (base : list float) (thr : float) (comps : list pystr)
    (ui : option pystr) (idxs : list nat) (active : gset nat)
    (r : Err + gset nat) (evs : list Event) : Prop :=
  match r with
  | inr a' => active ⊆ a' /\ a' ⊆ list_to_set idxs ∪ active /\
              (idxs ≠ [] -> restores base thr comps ui active idxs evs a') /\
              exists L, evs = concat L /\ length L <= length idxs /\ Forall trip L
  | inl _ => exists L part p, evs = concat L ++ part /\ length L < length idxs /\
                              Forall trip L /\ partial_trip p part
  end.

(** What a whole run leaves in the log, and its result. *)
Definition run_post (prompt : pystr) (ui : option pystr)
    (r : Err + AnalysisResult) (evs : list Event) : Prop :=
  let comps := parse_components prompt in
  let n := length comps in
  match comps with
  | [] => r = inr (build_analysis_result 0%float prompt [] [] 0) /\ evs = []
  | _ =>
      match r with
      | inr res =>
          exists b L1 v L3 (R1 R : gset nat),
            evs = b ++ concat L1 ++ v ++ concat L3 /\
            trip_for (build_full_prompt prompt ui) b /\
            Forall trip L1 /\ length L1 <= n /\
            R1 ⊆ set_seq 0 n /\
            trip_for (build_full_prompt
                        (build_improved_prompt (classify_components comps R1).1 prompt) ui) v /\
            Forall trip L3 /\ length L3 <= size R1 /\
            R ⊆ R1 /\ res = finish comps prompt R
      | inl _ =>
          exists L part p, evs = concat L ++ part /\ Forall trip L /\
                           partial_trip p part /\ length L <= 2 * n + 1
      end
  end.

(** A computation whose log grows by [evs] with outcome [r] such that [Q r evs]. *)
Definition hoare {Oracle A} (m : M Oracle A) (Q : Err + A -> list Event -> Prop) : Prop :=
  forall s, exists evs, st_log (m s).2 = st_log s ++ evs /\ Q (m s).1 evs.

(** The client a provider round trip went through. *)
Definition event_client (e : Event) : Client :=
  match e with Complete c _ _ | Embed c _ _ => c end.

(** The cache holds one of two values. *)
Definition client_in {Oracle} (cl0 cl' : option Client) (s : St Oracle) : Prop :=
  st_client s = cl0 \/ st_client s = cl'.

Definition uses_client (c : Client) (e : Event) : Prop := event_client e = c.

(** A computation that keeps the state invariant [I] and logs only events
    satisfying [P]. *)
Definition keeps {Oracle A} (m : M Oracle A) (I : St Oracle -> Prop) (P : Event -> Prop) : Prop :=
  forall s, I s -> I (m s).2 /\ exists evs, st_log (m s).2 = st_log s ++ evs /\ Forall P evs.

(* ================================================================== *)
(** * Properties *)

(** ** The unit tests of the repository, evaluated *)

Example parse_ex1 :
  parse_components (lit "First. Second.") = [lit "First."; lit "Second."].
Proof. reflexivity. Qed.

Example parse_ex2 :
  parse_components (lit "- a. b." ++ [newline] ++ lit "- c.")
  = [lit "- a. b."; lit "- c."].
Proof. reflexivity. Qed.

Example py_round2_ex1 : py_round2 (1 / 3)%float = 0.33%float.
Proof. vm_compute. reflexivity. Qed.

Example py_round2_ex2 : py_round2 0.125%float = 0.12%float.
Proof. vm_compute. reflexivity. Qed.

Example py_round2_ex3 : py_round2 (2 / 3)%float = 0.67%float.
Proof. vm_compute. reflexivity. Qed.

Example cos_ex1 : cosine_similarity [1; 0; 0]%float [0; 1; 0]%float = 0%float.
Proof. vm_compute. reflexivity. Qed.

Example run_recovery_test :
  (run_script None [e1; e1; e1; e1; e2; e2; e1] (lit "A. B. C. D.")).1
  = inr {| over_engineered_score := 0.25%float;
           improved_prompt := lit "A. B. C.";
           components_removed := [lit "D."];
           components_kept := [lit "A."; lit "B."; lit "C."];
           total_components := 4 |}.
Proof. vm_compute. reflexivity. Qed.

Example run_rounds_test :
  option_map over_engineered_score
    (match (run_script None [e1; e1; e2; e2; e1] (lit "First. Second. Third.")).1 with
     | inr r => Some r | inl _ => None end) = Some 0.33%float.
Proof. vm_compute. reflexivity. Qed.

(** ** Sorting and the order of renderings *)

Lemma py_sorted_sorted (S : gset nat) : Sorted (≤)%nat (py_sorted S).
Proof. apply Sorted_merge_sort. intros x y. lia. Qed.

Lemma py_sorted_perm (S : gset nat) : py_sorted S ≡ₚ elements S.
Proof. apply merge_sort_Permutation. Qed.

Lemma elem_of_py_sorted (S : gset nat) x : x ∈ py_sorted S ↔ x ∈ S.
Proof. by rewrite py_sorted_perm, elem_of_elements. Qed.

Lemma NoDup_py_sorted (S : gset nat) : NoDup (py_sorted S).
Proof. rewrite py_sorted_perm. apply NoDup_elements. Qed.

Lemma py_sorted_strict (S : gset nat) : StronglySorted lt (py_sorted S).
Proof.
  pose proof (Sorted_StronglySorted le _ (py_sorted_sorted S)) as Hs.
  pose proof (NoDup_py_sorted S) as Hn.
  induction Hs as [|x l Hl IH Hx]; constructor.
  - apply IH. by inversion Hn.
  - inversion Hn as [|? ? Hnx _]; subst.
    rewrite Forall_forall in Hx |- *. intros y Hy.
    assert (x <> y) by (intros ->; by apply Hnx).
    specialize (Hx y Hy). lia.
Qed.

Lemma py_sorted_nil (S : gset nat) : py_sorted S = [] ↔ S = ∅.
Proof.
  split.
  - intros H. apply set_eq. intros x. rewrite <- elem_of_py_sorted, H. set_solver.
  - intros ->. reflexivity.
Qed.

Lemma Sorted_le_filter_seq (P : nat -> Prop) `{!∀ x, Decision (P x)} start len :
  Sorted (≤)%nat (filter P (seq start len)).
Proof.
  apply StronglySorted_Sorted.
  revert start. induction len as [|len IH]; intros start; simpl; [constructor|].
  rewrite filter_cons. case_decide; [|apply IH].
  constructor; [apply IH|].
  apply Forall_forall. intros y Hy.
  apply list_elem_of_filter in Hy as [_ Hy]. apply elem_of_seq in Hy. lia.
Qed.

(** [sorted(S)] lists a set of indices in the order of the components. *)
Lemma py_sorted_seq (S : gset nat) n :
  S ⊆ set_seq 0 n ->
  py_sorted S = filter (fun i => i ∈ S) (seq 0 n).
Proof.
  intros Hsub. apply (Sorted_unique le).
  - apply py_sorted_sorted.
  - apply Sorted_le_filter_seq.
  - apply NoDup_Permutation.
    + apply NoDup_py_sorted.
    + apply NoDup_filter, NoDup_seq.
    + intros x. rewrite elem_of_py_sorted, list_elem_of_filter, elem_of_seq.
      split; [|naive_solver].
      intros Hx. split; [done|]. specialize (Hsub x Hx).
      apply elem_of_set_seq in Hsub. lia.
Qed.

(** ** Kept and removed lists *)

Lemma map_snd_filter_zip_seq (P : nat -> Prop) `{!∀ x, Decision (P x)}
    (comps : list pystr) start :
  map snd (filter (fun ic => P ic.1) (zip (seq start (length comps)) comps))
  = map (fun i => default [] (comps !! (i - start)%nat)) (filter P (seq start (length comps))).
Proof.
  revert start. induction comps as [|c cs IH]; intros start; [reflexivity|].
  cbn [length seq zip]. rewrite !filter_cons. simpl.
  assert (Htl : map (fun i => default [] ((c :: cs) !! (i - start)%nat)) (filter P (seq (S start) (length cs)))
              = map (fun i => default [] (cs !! (i - S start)%nat)) (filter P (seq (S start) (length cs)))).
  { apply map_ext_in. intros i Hi. apply list_elem_of_In, list_elem_of_filter in Hi as [_ Hi].
    apply elem_of_seq in Hi. replace (i - start)%nat with (S (i - S start)) by lia. reflexivity. }
  case_decide; simpl.
  - rewrite Nat.sub_diag. simpl. f_equal. rewrite IH. symmetry. exact Htl.
  - rewrite IH. symmetry. exact Htl.
Qed.

(** [_classify_components] walks the components in their order. *)
Lemma classify_components_seq (comps : list pystr) (R : gset nat) :
  classify_components comps R =
  (map (comp_at comps) (filter (fun i => i ∉ R) (seq 0 (length comps))),
   map (comp_at comps) (filter (fun i => i ∈ R) (seq 0 (length comps)))).
Proof.
  unfold classify_components, enumerate.
  pose proof (map_snd_filter_zip_seq (fun i => i ∉ R) comps 0) as H1.
  pose proof (map_snd_filter_zip_seq (fun i => i ∈ R) comps 0) as H2.
  simpl in H1, H2. rewrite H1, H2.
  f_equal; apply map_ext; intros i; by rewrite Nat.sub_0_r.
Qed.

Lemma length_filter_compl {A} (P : A -> Prop) `{!∀ x, Decision (P x)} (l : list A) :
  length (filter P l) + length (filter (fun x => ¬ P x) l) = length l.
Proof.
  induction l as [|x l IH]; [reflexivity|].
  rewrite !filter_cons. repeat case_decide; simpl; try tauto; lia.
Qed.

Lemma size_sub_seq (R : gset nat) n :
  R ⊆ set_seq 0 n -> size R = length (filter (fun i => i ∈ R) (seq 0 n)).
Proof.
  intros Hsub.
  assert (HR : R = list_to_set (filter (fun i => i ∈ R) (seq 0 n))).
  { apply set_eq. intros x. rewrite elem_of_list_to_set, list_elem_of_filter, elem_of_seq.
    split; [|naive_solver]. intros Hx. split; [done|].
    specialize (Hsub x Hx). apply elem_of_set_seq in Hsub. lia. }
  rewrite HR at 1. apply size_list_to_set, NoDup_filter, NoDup_seq.
Qed.

(** ** Binary64 multiplication commutes *)

Lemma SF64mul_comm x y : SF64mul x y = SF64mul y x.
Proof.
  destruct x as [sx|sx| |sx mx ex], y as [sy|sy| |sy my ey]; unfold SF64mul, SFmul;
    try reflexivity; try (rewrite xorb_comm; reflexivity).
  rewrite xorb_comm, Pos.mul_comm, Z.add_comm. reflexivity.
Qed.

Lemma float_mul_comm (x y : float) : PrimFloat.mul x y = PrimFloat.mul y x.
Proof.
  rewrite <- (SF2Prim_Prim2SF (PrimFloat.mul x y)), <- (SF2Prim_Prim2SF (PrimFloat.mul y x)).
  rewrite !mul_spec, SF64mul_comm. reflexivity.
Qed.

(** ** The provider calls of one run *)

Section Calls.
Context {Oracle : Type}
        (complete : Oracle -> Client -> pystr -> option (pystr * Oracle))
        (embed : Oracle -> Client -> pystr -> option (list float * Oracle))
        (env : Env).

Lemma hoare_ret {A} (a : A) : hoare (ret (Oracle:=Oracle) a) (fun r evs => r = inr a /\ evs = []).
Proof. intros s. exists []. simpl. by rewrite app_nil_r. Qed.

Lemma hoare_weaken {A} (m : M Oracle A) (Q Q' : Err + A -> list Event -> Prop) :
  hoare m Q -> (forall r evs, Q r evs -> Q' r evs) -> hoare m Q'.
Proof. intros H HQ s. destruct (H s) as (evs & ? & ?). eauto. Qed.

Lemma hoare_bind {A B} (m : M Oracle A) (f : A -> M Oracle B) Q1 Q2 :
  hoare m Q1 -> (forall a, hoare (f a) (Q2 a)) ->
  hoare (bind m f) (fun r evs => (exists e, r = inl e /\ Q1 (inl e) evs) \/
                                (exists a e1 e2, evs = e1 ++ e2 /\ Q1 (inr a) e1 /\ Q2 a r e2)).
Proof.
  intros H1 H2 s. unfold bind. destruct (H1 s) as (e1 & Hl1 & HQ1).
  destruct (m s) as [[e|a] s'] eqn:Hm; simpl in *.
  - exists e1. split; [done|]. left. exists e. by split.
  - destruct (H2 a s') as (e2 & Hl2 & HQ2). exists (e1 ++ e2).
    rewrite Hl2, Hl1, app_assoc. split; [done|]. right. by exists a, e1, e2.
Qed.

Lemma hoare_run {A} (m : M Oracle A) Q s r s' :
  hoare m Q -> m s = (r, s') -> exists evs, st_log s' = st_log s ++ evs /\ Q r evs.
Proof. intros H Hm. destruct (H s) as (evs & ? & ?). rewrite Hm in *. eauto. Qed.

Lemma resolveM_log k : hoare (resolveM Oracle env k) (fun _ evs => evs = []).
Proof.
  intros s. unfold resolveM. destruct (resolve_client env k (st_client s)).
  exists []. simpl. by rewrite app_nil_r.
Qed.

Lemma call_model_log p k :
  hoare (call_model Oracle complete env p k)
    (fun r evs => match r with
                  | inr o => exists c, evs = [Complete c p (Some o)]
                  | inl _ => evs = [] \/ exists c, evs = [Complete c p None]
                  end).
Proof.
  unfold call_model. eapply hoare_weaken.
  { apply (hoare_bind _ _ (fun _ evs => evs = []) (fun c r evs => match r with
                                            | inr o => evs = [Complete c p (Some o)]
                                            | inl _ => evs = [Complete c p None] end));
      [apply resolveM_log|].
    intros c s. destruct (complete (st_oracle s) c p) as [[o o']|];
      eexists; (split; [reflexivity|]); reflexivity. }
  intros r evs [(e & -> & ->)|(a & e1 & e2 & -> & -> & H)]; [by left|].
  destruct r; simpl in *; [right|]; eauto.
Qed.

Lemma get_embedding_log t k :
  hoare (get_embedding Oracle embed env t k)
    (fun r evs => match r with
                  | inr v => exists c, evs = [Embed c t (Some v)]
                  | inl _ => evs = [] \/ exists c, evs = [Embed c t None]
                  end).
Proof.
  unfold get_embedding. eapply hoare_weaken.
  { apply (hoare_bind _ _ (fun _ evs => evs = []) (fun c r evs => match r with
                                            | inr v => evs = [Embed c t (Some v)]
                                            | inl _ => evs = [Embed c t None] end));
      [apply resolveM_log|].
    intros c s. destruct (embed (st_oracle s) c t) as [[v o']|];
      eexists; (split; [reflexivity|]); reflexivity. }
  intros r evs [(e & -> & ->)|(a & e1 & e2 & -> & -> & H)]; [by left|].
  destruct r; simpl in *; [right|]; eauto.
Qed.

Section WithRun.
Variables (comps : list pystr) (base : list float) (thr : float) (ui k : option pystr).

Lemma validate_log p :
  hoare (validate_prompt Oracle complete embed env base ui k p)
    (fun r evs => match r with
                  | inr sim => roundtrip base (build_full_prompt p ui) sim evs
                  | inl _ => partial_trip (build_full_prompt p ui) evs
                  end).
Proof.
  unfold validate_prompt. eapply hoare_weaken.
  { apply hoare_bind; [apply call_model_log|]. intros o.
    apply hoare_bind; [apply get_embedding_log|]. intros v. apply hoare_ret. }
  intros r evs [(e & -> & [-> | [c ->]])|(o & e1 & e2 & -> & [c ->] & H)];
    [left; done | right; left; eauto |].
  destruct H as [(e & -> & [-> | [c' ->]])|(v & e3 & e4 & -> & [c' ->] & -> & ->)].
  - right. right. left. eauto.
  - right. right. right. eauto.
  - exists c, o, c', v. split; [done|reflexivity].
Qed.

Lemma test_removal_log i (active : gset nat) :
  hoare (test_removal_similarity Oracle complete embed env comps base ui k i active)
    (fun r evs => (active ∖ {[i]} = ∅ /\ r = inr 0%float /\ evs = []) \/
                  (active ∖ {[i]} ≠ ∅ /\
                   match r with
                   | inr sim => roundtrip base
                                  (build_full_prompt (render comps (active ∖ {[i]})) ui) sim evs
                   | inl _ => partial_trip
                                (build_full_prompt (render comps (active ∖ {[i]})) ui) evs
                   end)).
Proof.
  unfold test_removal_similarity. destruct (py_sorted (active ∖ {[i]})) as [|j l] eqn:E.
  - apply py_sorted_nil in E. eapply hoare_weaken; [apply hoare_ret|].
    intros r evs [-> ->]. by left.
  - assert (Hne : active ∖ {[i]} ≠ ∅).
    { intros Hemp. apply py_sorted_nil in Hemp. congruence. }
    assert (Hv : hoare (validate_prompt Oracle complete embed env base ui k
                          (render comps (active ∖ {[i]})))
                   (fun r evs => match r with
                   | inr sim => roundtrip base
                                  (build_full_prompt (render comps (active ∖ {[i]})) ui) sim evs
                   | inl _ => partial_trip
                                (build_full_prompt (render comps (active ∖ {[i]})) ui) evs
                   end)) by apply validate_log.
    assert (Hr : render comps (active ∖ {[i]}) = py_join space (map (comp_at comps) (j :: l)))
      by (unfold render; by rewrite E).
    rewrite Hr in Hv |- *. unfold validate_prompt in Hv.
    intros s. destruct (Hv s) as (evs & H1 & H2). exists evs. split; [exact H1|].
    right. split; [exact Hne|]. exact H2.
Qed.

Lemma roundtrip_trip p sim evs : roundtrip base p sim evs -> trip evs.
Proof. intros (c & o & c' & v & -> & _). by exists c, p, o, c', v. Qed.

Lemma phase1_log idxs : forall active,
  hoare (phase1 Oracle complete embed env comps base thr ui k idxs active)
        (phase1_post idxs active).
Proof.
  induction idxs as [|i rest IH]; intros active; simpl.
  - eapply hoare_weaken; [apply hoare_ret|]. intros r evs [-> ->].
    split; [done|]. exists []. simpl. auto with lia.
  - eapply hoare_weaken.
    { apply hoare_bind; [apply test_removal_log|]. intros sim. apply IH. }
    intros r evs [(e & -> & [(_ & ? & _)|(_ & Hp)])|(sim & e1 & e2 & -> & Ht & Hr)];
      [discriminate| |].
    + exists [], evs, (build_full_prompt (render comps (active ∖ {[i]})) ui).
      simpl. split; [done|]. split; [lia|]. by split.
    + assert (Hl : exists L1, e1 = concat L1 /\ length L1 <= 1 /\ Forall trip L1).
      { destruct Ht as [(_ & _ & ->)|(_ & Hs)].
        - exists []. simpl. auto with lia.
        - exists [e1]. simpl. rewrite app_nil_r. repeat split; [lia|].
          constructor; [|constructor]. by eapply roundtrip_trip. }
      destruct Hl as (L1 & -> & HL1 & HT1).
      unfold phase1_post in Hr |- *. destruct r as [e|a'].
      * destruct Hr as (L & part & p & -> & HL & HT & Hpt).
        exists (L1 ++ L), part, p. rewrite concat_app, app_assoc.
        split; [done|]. rewrite length_app. simpl. split; [lia|].
        split; [by apply Forall_app|done].
      * destruct Hr as (Hsub & L & -> & HL & HT). split.
        { etrans; [exact Hsub|]. case_match; set_solver. }
        exists (L1 ++ L). rewrite concat_app. split; [done|].
        rewrite length_app. simpl. split; [lia|]. by apply Forall_app.
Qed.

Lemma recovery_log idxs : forall active,
  hoare (recovery Oracle complete embed env comps base thr ui k idxs active)
        (recovery_post base thr comps ui idxs active).
Proof.
  induction idxs as [|idx rest IH]; intros active; simpl.
  - eapply hoare_weaken; [apply hoare_ret|]. intros r evs [-> ->].
    split; [done|]. split; [set_solver|]. split; [done|].
    exists []. simpl. auto with lia.
  - set (a'' := {[idx]} ∪ active).
    eapply hoare_weaken.
    { apply (hoare_bind _ _
               (fun r evs => match r with
                  | inr sim => roundtrip base (build_full_prompt (render comps a'') ui) sim evs
                  | inl _ => partial_trip (build_full_prompt (render comps a'') ui) evs
                  end)
               (fun sim r evs => (PrimFloat.leb thr sim = true /\ r = inr a'' /\ evs = []) \/
                                 (PrimFloat.leb thr sim = false /\ recovery_post base thr comps ui rest a'' r evs)));
        [apply validate_log|].
      intros sim. destruct (PrimFloat.leb thr sim) eqn:Hc.
      - eapply hoare_weaken; [apply hoare_ret|]. intros r evs [-> ->]. by left.
      - eapply hoare_weaken; [apply IH|]. intros r evs H. by right. }
    intros r evs [(e & -> & Hp)|(sim & e1 & e2 & -> & Hv & Hr)].
    + exists [], evs, (build_full_prompt (render comps a'') ui).
      simpl. split; [done|]. split; [lia|]. by split.
    + assert (Ht : trip e1) by (by eapply roundtrip_trip).
      destruct Hr as [(Hc & -> & ->)|(Hc & Hr)].
      * split; [set_solver|]. split; [set_solver|]. split.
        { intros _. rewrite app_nil_r. by eapply restores_stop. }
        exists [e1]. simpl. rewrite !app_nil_r. split; [done|]. split; [lia|].
        by constructor.
      * unfold recovery_post in Hr |- *. destruct r as [e|a'].
        -- destruct Hr as (L & part & p & -> & HL & HT & Hpt).
           exists (e1 :: L), part, p. simpl. rewrite app_assoc.
           split; [done|]. split; [lia|]. split; [by constructor|done].
        -- destruct Hr as (Hsub1 & Hsub2 & Hres & L & -> & HL & HT).
           split; [set_solver|]. split; [set_solver|]. split.
           { intros _. destruct rest as [|r' rest'].
             - simpl in HL. destruct L; [|simpl in HL; lia]. simpl.
               simpl in Hsub1, Hsub2. assert (a' = a'') as -> by set_solver.
               rewrite app_nil_r. by eapply restores_all.
             - eapply restores_next; [exact Hv|exact Hc|]. by apply Hres. }
           exists (e1 :: L). simpl. split; [done|]. split; [lia|]. by constructor.
Qed.

Lemma phase3_log vsim (R active : gset nat) :
  hoare (phase3 Oracle complete embed env comps base thr ui k vsim R active)
    (fun r evs => if PrimFloat.ltb vsim thr && bool_decide (R ≠ ∅)
                  then recovery_post base thr comps ui (py_sorted R) active r evs
                  else r = inr active /\ evs = []).
Proof.
  unfold phase3. destruct (PrimFloat.ltb vsim thr && bool_decide (R ≠ ∅)).
  - apply recovery_log.
  - apply hoare_ret.
Qed.
End WithRun.

Lemma partial_trip_roundtrip_free p evs :
  partial_trip p evs -> count_complete evs <= 1 /\ count_embed evs <= count_complete evs.
Proof.
  intros [->|[(c & ->)|[(c & o & ->)|(c & o & c' & ->)]]]; cbv; lia.
Qed.

Lemma count_trips L :
  Forall trip L -> count_complete (concat L) = length L /\ count_embed (concat L) = length L.
Proof.
  induction 1 as [|evs L (c & p & o & c' & v & ->) _ [IH1 IH2]]; [done|].
  unfold count_complete, count_embed in *. simpl. lia.
Qed.

Lemma count_app evs1 evs2 :
  count_complete (evs1 ++ evs2) = count_complete evs1 + count_complete evs2 /\
  count_embed (evs1 ++ evs2) = count_embed evs1 + count_embed evs2.
Proof. unfold count_complete, count_embed. by rewrite !List.filter_app, !length_app. Qed.

Lemma roundtrip_trip_for base p sim evs : roundtrip base p sim evs -> trip_for p evs.
Proof. intros (c & o & c' & v & -> & _). by exists c, o, c', v. Qed.

Lemma size_py_sorted (S : gset nat) : length (py_sorted S) = size S.
Proof. by rewrite py_sorted_perm. Qed.

Lemma run_log parse_float prompt ui k :
  hoare (run_stripe_analysis Oracle complete embed parse_float env prompt ui k)
        (run_post prompt ui).
Proof.
  unfold run_stripe_analysis, run_post.
  destruct (parse_components prompt) as [|c0 l0] eqn:Hp.
  { eapply hoare_weaken; [apply hoare_ret|]. intros r evs [-> ->]. done. }
  set (n := length (c0 :: l0)).
  assert (Hn : forall R1 : gset nat, R1 ⊆ set_seq 0 n -> size R1 <= n).
  { intros R1 HR. etrans; [by apply subseteq_size|]. by rewrite size_set_seq. }
  intros s. unfold bind.
  destruct (call_model Oracle complete env (build_full_prompt prompt ui) k s)
    as [[e|bo] s1] eqn:E1;
    destruct (hoare_run _ _ _ _ _ (call_model_log _ _) E1) as (ev1 & Hl1 & P1);
    cbv beta iota; cbn [fst snd].
  { exists ev1. split; [done|]. exists [], ev1, (build_full_prompt prompt ui).
    split; [done|]. split; [constructor|]. split; [|cbn [length]; lia].
    destruct P1 as [->|[c ->]]; [by left|right; left; eauto]. }
  destruct P1 as [c1 ->].
  destruct (get_embedding Oracle embed env bo k s1) as [[e|base] s2] eqn:E2;
    destruct (hoare_run _ _ _ _ _ (get_embedding_log _ _) E2) as (ev2 & Hl2 & P2);
    cbv beta iota; cbn [fst snd].
  { exists ([Complete c1 (build_full_prompt prompt ui) (Some bo)] ++ ev2).
    split; [by rewrite Hl2, Hl1, app_assoc|].
    exists [], ([Complete c1 (build_full_prompt prompt ui) (Some bo)] ++ ev2),
      (build_full_prompt prompt ui).
    split; [done|]. split; [constructor|]. split; [|cbn [length]; lia].
    destruct P2 as [->|[c ->]]; right; right; [left|right]; eauto. }
  destruct P2 as [c2 ->].
  set (b := [Complete c1 (build_full_prompt prompt ui) (Some bo); Embed c2 bo (Some base)]).
  assert (Hb : trip_for (build_full_prompt prompt ui) b) by (by exists c1, bo, c2, base).
  assert (Hbt : trip b) by (by exists c1, (build_full_prompt prompt ui), bo, c2, base).
  assert (Hl12 : st_log s2 = st_log s ++ b) by (by rewrite Hl2, Hl1, <- app_assoc).
  clear Hl1 Hl2 E1 E2.
  set (thr := get_similarity_threshold parse_float (SIMILARITY_THRESHOLD env)).
  destruct (phase1 Oracle complete embed env (c0 :: l0) base thr ui k
              (rev (seq 0 n)) (set_seq 0 n) s2) as [[e|a1] s3] eqn:E3;
    destruct (hoare_run _ _ _ _ _ (phase1_log _ _ _ _ _ _ _) E3) as (ev3 & Hl3 & P3);
    cbv beta iota; cbn [fst snd].
  { destruct P3 as (L & part & p & -> & HL & HT & Hpt).
    exists (b ++ concat L ++ part). split; [rewrite Hl3, Hl12; by rewrite <- !app_assoc|].
    exists (b :: L), part, p. split; [by rewrite app_assoc|]. split; [by constructor|].
    split; [done|]. rewrite length_rev, length_seq in HL. cbn [length]. lia. }
  destruct P3 as (Hsub1 & L1 & -> & HL1 & HT1).
  rewrite length_rev, length_seq in HL1.
  set (R1 := set_seq 0 n ∖ a1).
  destruct (classify_components (c0 :: l0) R1) as [kept rem] eqn:Ecl.
  destruct (validate_prompt Oracle complete embed env base ui k
              (build_improved_prompt kept prompt) s3) as [[e|vsim] s4] eqn:E4;
    destruct (hoare_run _ _ _ _ _ (validate_log _ _ _ _) E4) as (ev4 & Hl4 & P4);
    cbv beta iota; cbn [fst snd].
  { exists (b ++ concat L1 ++ ev4). split; [rewrite Hl4, Hl3, Hl12; by rewrite <- !app_assoc|].
    exists (b :: L1), ev4, (build_full_prompt (build_improved_prompt kept prompt) ui).
    split; [by rewrite app_assoc|]. split; [by constructor|]. split; [done|]. cbn [length]. lia. }
  apply roundtrip_trip_for in P4.
  destruct (phase3 Oracle complete embed env (c0 :: l0) base thr ui k vsim R1 a1 s4)
    as [[e|a'] s5] eqn:E5;
    destruct (hoare_run _ _ _ _ _ (phase3_log _ _ _ _ _ _ _ _) E5) as (ev5 & Hl5 & P5);
    cbv beta iota; cbn [fst snd].
  { destruct (_ && _); [|by destruct P5].
    destruct P5 as (L & part & p & -> & HL & HT & Hpt).
    rewrite size_py_sorted in HL.
    assert (size R1 <= n) by (apply Hn; subst R1; set_solver).
    exists (b ++ concat L1 ++ ev4 ++ concat L ++ part).
    split; [rewrite Hl5, Hl4, Hl3, Hl12; by rewrite <- !app_assoc|].
    exists (b :: L1 ++ ev4 :: L), part, p.
    split; [by rewrite concat_cons, concat_app, concat_cons, !app_assoc|].
    split; [|split; [done|]].
    - constructor; [done|]. apply Forall_app. split; [done|].
      constructor; [|done]. destruct P4 as (c & o & c' & v & ->). by exists c, (build_full_prompt (build_improved_prompt kept prompt) ui), o, c', v.
    - cbn [length]. rewrite length_app. cbn [length]. lia. }
  assert (Hrec : a1 ⊆ a' /\ exists L3, ev5 = concat L3 /\ length L3 <= size R1 /\ Forall trip L3).
  { destruct (_ && _).
    - destruct P5 as (Hs & _ & _ & L3 & -> & HL3 & HT3). rewrite size_py_sorted in HL3. eauto.
    - destruct P5 as [[= ->] ->]. split; [done|]. exists []. simpl. auto with lia. }
  destruct Hrec as (Hsub3 & L3 & -> & HL3 & HT3).
  unfold ret; cbn [fst snd].
  exists (b ++ concat L1 ++ ev4 ++ concat L3).
  split; [rewrite Hl5, Hl4, Hl3, Hl12; by rewrite <- !app_assoc|].
  exists b, L1, ev4, L3, R1, (set_seq 0 n ∖ a').
  split; [done|]. split; [done|]. split; [done|]. split; [done|].
  split; [subst R1; set_solver|]. split; [by rewrite Ecl|].
  split; [done|]. split; [done|]. split; [subst R1; set_solver|]. done.
Qed.
End Calls.

(** ** The assembled result *)

Lemma finish_spec (comps : list pystr) (prompt : pystr) (R : gset nat) :
  R ⊆ set_seq 0 (length comps) ->
  let res := finish comps prompt R in
  total_components res = length comps /\
  components_kept res = map (comp_at comps) (filter (fun i => i ∉ R) (seq 0 (length comps))) /\
  components_removed res = map (comp_at comps) (filter (fun i => i ∈ R) (seq 0 (length comps))) /\
  length (components_removed res) = size R /\
  total_components res = length (components_kept res) + length (components_removed res) /\
  over_engineered_score res =
    py_round2 (match comps with
               | [] => 0%float
               | _ => PrimFloat.div (float_of_nat (length (components_removed res)))
                                    (float_of_nat (total_components res))
               end) /\
  improved_prompt res = build_improved_prompt (components_kept res) prompt.
Proof.
  intros Hsub. unfold finish. rewrite classify_components_seq. cbn.
  rewrite !length_map, <- size_sub_seq by done.
  pose proof (length_filter_compl (fun i => i ∈ R) (seq 0 (length comps))) as Hc.
  rewrite length_seq in Hc.
  repeat split; try reflexivity. rewrite (size_sub_seq R (length comps) Hsub). lia.
Qed.

(** ** Float comparisons *)

Lemma SFcompare_swap x y : SFcompare y x = option_map CompOpp (SFcompare x y).
Proof.
  destruct x as [[]|[]| |[] mx ex], y as [[]|[]| |[] my ey]; try reflexivity; cbn;
    pose proof (Z.compare_antisym ex ey) as H;
    destruct (ex ?= ey)%Z; cbn in H; rewrite H; try reflexivity;
    pose proof (Pos.compare_cont_antisym mx my Eq) as H';
    first [exact (f_equal Some H') | exact (f_equal Some (eq_sym H'))
          | exact (f_equal Some (f_equal CompOpp H'))
          | exact (f_equal Some (f_equal CompOpp (eq_sym H')))].
Qed.

Lemma float_ltb_leb x y : PrimFloat.ltb x y = true -> PrimFloat.leb x y = true.
Proof.
  rewrite ltb_spec, leb_spec. unfold SFltb, SFleb.
  destruct (SFcompare _ _) as [[]|]; done.
Qed.

Lemma float_ltb_asym x y : PrimFloat.ltb x y = true -> PrimFloat.ltb y x = false.
Proof.
  rewrite !ltb_spec. unfold SFltb. rewrite (SFcompare_swap (Prim2SF x)).
  destruct (SFcompare _ _) as [[]|]; done.
Qed.

Lemma float_ltb_0_1 v : PrimFloat.ltb v 0 = true -> PrimFloat.ltb v 1 = true.
Proof.
  rewrite !ltb_spec.
  change (Prim2SF 0) with (S754_zero false).
  change (Prim2SF 1) with (S754_finite false 4503599627370496 (-52)).
  unfold SFltb. destruct (Prim2SF v) as [[]|[]| |[] m e]; done.
Qed.

(** ** Dot products and norms *)

Lemma dot_terms_comm (a b : list float) :
  map (fun xy => PrimFloat.mul xy.1 xy.2) (zip a b) =
  map (fun xy => PrimFloat.mul xy.1 xy.2) (zip b a).
Proof.
  revert b. induction a as [|x a IH]; intros [|y b]; try reflexivity.
  cbn. by rewrite float_mul_comm, IH.
Qed.

Lemma py_sum_zeros k : py_sum (repeat 0%float k) = 0%float.
Proof.
  unfold py_sum. induction k as [|k IH]; [reflexivity|].
  cbn [repeat fold_left]. change (0 + 0)%float with 0%float. exact IH.
Qed.

Lemma norm_zero_vector k :
  PrimFloat.sqrt (py_sum (map (fun x => PrimFloat.mul x x) (repeat 0%float k))) = 0%float.
Proof.
  rewrite map_repeat. change (0 * 0)%float with 0%float. rewrite py_sum_zeros. reflexivity.
Qed.

(** ** Splitting the prompt into lines *)

Lemma split_go_nosep (sep : pychar) (x rest cur : pystr) :
  sep ∉ x -> split_go sep (x ++ rest) cur = split_go sep rest (rev x ++ cur).
Proof.
  revert cur. induction x as [|c x IH]; intros cur Hx; [reflexivity|].
  apply not_elem_of_cons in Hx as [Hc Hx]. cbn [app split_go].
  replace (c =? sep)%N with false by (symmetry; apply N.eqb_neq; congruence).
  rewrite IH by done. cbn [rev]. by rewrite <- app_assoc.
Qed.

(** [sep.join(lines).split(sep)] gives the lines back when none holds [sep]. *)
Lemma py_split_join (sep : pychar) (lines : list pystr) :
  lines ≠ [] -> Forall (fun x => sep ∉ x) lines -> py_split sep (py_join [sep] lines) = lines.
Proof.
  induction lines as [|x [|y r] IH]; intros Hne Hall; [done| |].
  - inversion Hall as [|? ? Hx _]; subst. cbn [py_join]. unfold py_split.
    rewrite <- (app_nil_r x) at 1. rewrite split_go_nosep by done.
    cbn. by rewrite app_nil_r, rev_involutive.
  - inversion Hall as [|? ? Hx Hr]; subst.
    change (py_join [sep] (x :: y :: r)) with (x ++ [sep] ++ py_join [sep] (y :: r)).
    unfold py_split. rewrite split_go_nosep by done. cbn [app split_go].
    rewrite N.eqb_refl, app_nil_r, rev_involutive. f_equal. by apply IH.
Qed.

(** A line whose stripped text matches [_LIST_MARKER_RE] is one component. *)
Lemma parse_marker_line (pre : list pystr) (l : pystr) (post : list pystr) :
  Forall (fun x => newline ∉ x) (pre ++ l :: post) ->
  list_marker_match (strip l) = true ->
  exists A B, parse_components (py_join [newline] (pre ++ l :: post)) = A ++ strip l :: B.
Proof.
  intros Hall Hm. unfold parse_components.
  rewrite py_split_join by (done || by destruct pre).
  assert (Hne : strip l ≠ []) by (intros E; rewrite E in Hm; discriminate).
  rewrite filter_app, filter_cons_True by done.
  rewrite map_app, map_cons, flat_map_app. cbn [flat_map].
  assert (Hl : line_components (strip l) = [strip l]) by (unfold line_components; by rewrite Hm).
  rewrite Hl. cbn [app].
  set (A := flat_map line_components (map strip (filter (fun x => strip x ≠ []) pre))).
  set (B := flat_map line_components (map strip (filter (fun x => strip x ≠ []) post))).
  exists A, B. destruct (A ++ strip l :: B) eqn:E; [by destruct A|done].
Qed.

(** ** Stripping *)

Lemma lstrip_cases (s : pystr) :
  lstrip s = [] \/ exists c r, lstrip s = c :: r /\ py_isspace c = false.
Proof.
  induction s as [|c s IH]; [by left|]. simpl.
  destruct (py_isspace c) eqn:E; [exact IH|right; eauto].
Qed.

Lemma lstrip_nil_iff (s : pystr) : lstrip s = [] <-> Forall (fun c => py_isspace c = true) s.
Proof.
  induction s as [|c s IH]; [split; [constructor|done]|]. simpl.
  destruct (py_isspace c) eqn:E.
  - rewrite IH. split; [by constructor|by inversion 1].
  - split; [done|]. inversion 1; congruence.
Qed.

Lemma lstrip_idem (s : pystr) : lstrip (lstrip s) = lstrip s.
Proof.
  destruct (lstrip_cases s) as [->|(c & r & -> & Hc)]; [done|]. simpl. by rewrite Hc.
Qed.

Lemma lstrip_snoc (x : pystr) (c : pychar) :
  py_isspace c = false -> lstrip (x ++ [c]) = lstrip x ++ [c].
Proof.
  intros Hc. induction x as [|a x IH]; simpl; [by rewrite Hc|].
  destruct (py_isspace a); [exact IH|done].
Qed.

Lemma rstrip_cons (c : pychar) (r : pystr) :
  py_isspace c = false -> rstrip (c :: r) = c :: rstrip r.
Proof.
  intros Hc. unfold rstrip. cbn [rev]. rewrite lstrip_snoc by done.
  by rewrite rev_app_distr.
Qed.

Lemma rstrip_idem (s : pystr) : rstrip (rstrip s) = rstrip s.
Proof. unfold rstrip. by rewrite rev_involutive, lstrip_idem. Qed.

(** [s.strip().strip() == s.strip()] *)
Lemma strip_idem (s : pystr) : strip (strip s) = strip s.
Proof.
  unfold strip.
  assert (H : lstrip (rstrip (lstrip s)) = rstrip (lstrip s)).
  { destruct (lstrip_cases s) as [->|(c & r & -> & Hc)]; [done|].
    rewrite rstrip_cons by done. simpl. by rewrite Hc. }
  by rewrite H, rstrip_idem.
Qed.

Lemma strip_nil_iff (s : pystr) : strip s = [] <-> Forall (fun c => py_isspace c = true) s.
Proof.
  unfold strip. rewrite <- lstrip_nil_iff.
  destruct (lstrip_cases s) as [->|(c & r & -> & Hc)]; [done|].
  rewrite rstrip_cons by done. done.
Qed.

Lemma elem_of_rev {A} (x : A) (l : list A) : x ∈ rev l <-> x ∈ l.
Proof. rewrite !list_elem_of_In. symmetry. apply in_rev. Qed.

Lemma split_go_chars (sep : pychar) (s cur piece : pystr) x :
  piece ∈ split_go sep s cur -> x ∈ piece -> x ∈ s \/ x ∈ cur.
Proof.
  revert cur. induction s as [|c s IH]; intros cur Hp Hx; simpl in Hp.
  - apply list_elem_of_singleton in Hp as ->. right. by rewrite elem_of_rev in Hx.
  - destruct (c =? sep)%N.
    + apply elem_of_cons in Hp as [->|Hp].
      * right. by rewrite elem_of_rev in Hx.
      * destruct (IH [] Hp Hx) as [H|H]; [left; by apply elem_of_cons; right|set_solver].
    + destruct (IH (c :: cur) Hp Hx) as [H|H]; [left; by apply elem_of_cons; right|].
      apply elem_of_cons in H as [->|H]; [left; by apply elem_of_cons; left|by right].
Qed.

Lemma filter_none {A} (P : A -> Prop) `{!∀ x, Decision (P x)} (l : list A) :
  (forall x, x ∈ l -> ¬ P x) -> filter P l = [].
Proof.
  induction l as [|y l IH]; intros Hn; [done|].
  rewrite filter_cons_False by (apply Hn; set_solver). apply IH. set_solver.
Qed.

Lemma elem_of_flat_map {A B} (f : A -> list B) (l : list A) y :
  y ∈ flat_map f l <-> exists x, x ∈ l /\ y ∈ f x.
Proof.
  induction l as [|a l IH]; simpl.
  - split; [by intros ?%not_elem_of_nil|]. intros (x & Hx & _). by apply not_elem_of_nil in Hx.
  - rewrite elem_of_app, IH. split.
    + intros [Hy|(x & Hx & Hy)]; [exists a; split; [left|]; done|].
      exists x. split; [by right|done].
    + intros (x & [->|Hx]%elem_of_cons & Hy); [by left|right; eauto].
Qed.

(** Every piece of [s.split(sep)] is made of characters of [s]. *)
Lemma py_split_chars (sep : pychar) (s piece : pystr) x :
  piece ∈ py_split sep s -> x ∈ piece -> x ∈ s.
Proof.
  intros Hp Hx. destruct (split_go_chars sep s [] piece x Hp Hx) as [H|H]; [done|].
  by apply not_elem_of_nil in H.
Qed.

Lemma parse_components_nil_iff (prompt : pystr) :
  parse_components prompt = [] <-> Forall (fun c => py_isspace c = true) prompt.
Proof.
  unfold parse_components. split.
  - destruct (flat_map line_components _); [|done].
    case_bool_decide as Hb; [|done]. intros _. by apply strip_nil_iff.
  - intros Hall.
    rewrite (filter_none _ (py_split newline prompt)).
    + cbn. rewrite bool_decide_eq_true_2; [done|]. by apply strip_nil_iff.
    + intros l Hl Hne. apply Hne, strip_nil_iff, Forall_forall.
      intros x Hx. rewrite Forall_forall in Hall. apply Hall.
      by eapply py_split_chars.
Qed.

(** ** Rounding error of [v / (sqrt v * sqrt v)]

    The lemmas below follow the specification of binary64 arithmetic in
    [Stdlib.Floats] ([SF64sqrt], [SF64mul], [SF64div] and the rounding
    [binary_round_aux]) to bound the value computed for [v / (sqrt v)^2]
    when [v] is a normal float of at most [2^1022]. *)
Module FloatFacts.
Local Open Scope Z_scope.

Lemma digits2_pos_size p : digits2_pos p = Pos.size p.
Proof. induction p; simpl; congruence. Qed.

Lemma Zdigits2_log2 p : Zdigits2 (Zpos p) = Z.log2 (Zpos p) + 1.
Proof.
  simpl. rewrite digits2_pos_size.
  destruct p; simpl; try lia; rewrite Pos.add_1_r, Pos2Z.inj_succ; lia.
Qed.

Lemma iter_pos_nat {A} (f : A -> A) p x : SpecFloat.iter_pos f p x = Nat.iter (Pos.to_nat p) f x.
Proof.
  assert (Hc : forall n y, Nat.iter n f (f y) = f (Nat.iter n f y)).
  { induction n; intros y; simpl; congruence. }
  assert (Ha : forall a b y, Nat.iter (a + b) f y = Nat.iter a f (Nat.iter b f y)).
  { induction a; intros b y; simpl; congruence. }
  revert x. induction p as [p IH|p IH|]; intros x; cbn [SpecFloat.iter_pos].
  - rewrite Pos2Nat.inj_xI, !IH. replace (2 * Pos.to_nat p)%nat with (Pos.to_nat p + Pos.to_nat p)%nat by lia.
    rewrite !Hc, <- Ha. reflexivity.
  - rewrite Pos2Nat.inj_xO, !IH. replace (2 * Pos.to_nat p)%nat with (Pos.to_nat p + Pos.to_nat p)%nat by lia.
    rewrite <- Ha. reflexivity.
  - reflexivity.
Qed.

Lemma shr_1_m r : 0 <= shr_m r -> shr_m (shr_1 r) = shr_m r / 2.
Proof.
  destruct r as [m rr ss]; simpl. intros Hm.
  destruct m as [|p|p]; [reflexivity| |lia].
  destruct p as [p|p|]; simpl.
  - rewrite Pos2Z.inj_xI. apply Z.div_unique with 1; lia.
  - rewrite Pos2Z.inj_xO. apply Z.div_unique with 0; lia.
  - reflexivity.
Qed.

Lemma iter_shr_1_m n r : 0 <= shr_m r -> shr_m (Nat.iter n shr_1 r) = shr_m r / 2 ^ Z.of_nat n.
Proof.
  intros Hm. induction n as [|n IH].
  - simpl. rewrite Z.div_1_r. reflexivity.
  - change (Nat.iter (S n) shr_1 r) with (shr_1 (Nat.iter n shr_1 r)).
    rewrite shr_1_m, IH.
    + rewrite Z.div_div by lia. rewrite Nat2Z.inj_succ, Z.pow_succ_r by lia.
      rewrite Z.mul_comm. reflexivity.
    + rewrite IH. apply Z.div_pos; [lia|]. apply Z.pow_pos_nonneg; lia.
Qed.

Lemma shr_m_pos r e n :
  0 <= shr_m r -> 0 <= n -> shr_m (fst (shr r e n)) = shr_m r / 2 ^ n /\ snd (shr r e n) = e + n.
Proof.
  intros Hm Hn. destruct n as [|p|p]; simpl.
  - rewrite Z.div_1_r. split; [reflexivity|lia].
  - rewrite iter_pos_nat, iter_shr_1_m by exact Hm. rewrite positive_nat_Z. split; reflexivity.
  - lia.
Qed.

Lemma round_nearest_even_cases m l : round_nearest_even m l = m \/ round_nearest_even m l = m + 1.
Proof. destruct l as [|[]]; simpl; auto. destruct (Z.even m); auto. Qed.

Lemma shr_record_of_loc_m m l : shr_m (shr_record_of_loc m l) = m.
Proof. destruct l as [|[]]; reflexivity. Qed.

(** Faithful rounding of [binary_round_aux] in the normal range: a
    mantissa of at least 53 bits is cut to 53 bits, rounded to the
    neighbour below or above, and renormalised when rounding up reaches
    [2^53]. *)
Lemma round_aux_normal (mx ex : Z) (lx : location) :
  52 <= Z.log2 mx -> -1074 <= ex + Z.log2 mx - 52 -> ex + Z.log2 mx <= 1022 ->
  exists M E, binary_round_aux 53 1024 false mx ex lx = S754_finite false M E /\
    2 ^ 52 <= Zpos M < 2 ^ 53 /\
    ex + Z.log2 mx - 52 <= E <= ex + Z.log2 mx - 51 /\
    mx - 2 ^ (Z.log2 mx - 52) < Zpos M * 2 ^ (E - ex) <= mx + 2 ^ (Z.log2 mx - 52).
Proof.
  intros H1 H2 H3.
  assert (Hpos : 0 < mx).
  { destruct (Z.lt_ge_cases 0 mx) as [h|h]; [exact h|].
    rewrite Z.log2_nonpos in H1 by exact h. lia. }
  set (n := Z.log2 mx - 52).
  assert (Hn : 0 <= n) by lia.
  destruct (Z.log2_spec mx Hpos) as [Hlo Hhi].
  assert (Hlo' : 2 ^ 52 * 2 ^ n <= mx).
  { rewrite <- Z.pow_add_r by lia. replace (52 + n) with (Z.log2 mx) by lia. exact Hlo. }
  assert (Hhi' : mx < 2 ^ 53 * 2 ^ n).
  { rewrite <- Z.pow_add_r by lia. replace (53 + n) with (Z.succ (Z.log2 mx)) by lia. exact Hhi. }
  assert (Hpn : 0 < 2 ^ n) by (apply Z.pow_pos_nonneg; lia).
  set (q := mx / 2 ^ n).
  assert (Hq : 2 ^ n * q <= mx < 2 ^ n * q + 2 ^ n).
  { pose proof (Z.mul_div_le mx (2 ^ n) Hpn). pose proof (Z.mod_pos_bound mx (2 ^ n) Hpn).
    pose proof (Z.div_mod mx (2 ^ n)). subst q. lia. }
  assert (Hqb : 2 ^ 52 <= q < 2 ^ 53) by nia.
  unfold binary_round_aux.
  destruct mx as [|pm|pm]; try lia.
  assert (HA : exists r1, shr_fexp 53 1024 (Zpos pm) ex lx = (r1, ex + n) /\ shr_m r1 = q).
  { unfold shr_fexp. rewrite Zdigits2_log2.
    replace (fexp 53 1024 (Z.log2 (Zpos pm) + 1 + ex) - ex) with n
      by (unfold fexp, emin; lia).
    destruct (shr_m_pos (shr_record_of_loc (Zpos pm) lx) ex n) as [Hm He];
      [rewrite shr_record_of_loc_m; lia|exact Hn|].
    destruct (shr (shr_record_of_loc (Zpos pm) lx) ex n) as [r1 e1].
    simpl in Hm, He. rewrite shr_record_of_loc_m in Hm. subst e1. eauto. }
  destruct HA as (r1 & -> & Hm). cbv beta iota.
  set (m2 := round_nearest_even (shr_m r1) (loc_of_shr_record r1)).
  assert (Hm2 : m2 = q \/ m2 = q + 1) by (subst m2; rewrite Hm; apply round_nearest_even_cases).
  assert (Hm2b : 2 ^ 52 <= m2 <= 2 ^ 53) by lia.
  assert (HB : exists r2 k, shr_fexp 53 1024 m2 (ex + n) loc_Exact = (r2, ex + n + k) /\
                 (k = 0 /\ shr_m r2 = m2 /\ m2 < 2 ^ 53 \/ k = 1 /\ shr_m r2 = 2 ^ 52 /\ m2 = 2 ^ 53)).
  { unfold shr_fexp.
    destruct m2 as [|p2|p2] eqn:Em2; try lia.
    rewrite Zdigits2_log2.
    destruct (Z.eq_dec (Zpos p2) (2 ^ 53)) as [Htop|Htop].
    - rewrite Htop. change (Z.log2 (2 ^ 53)) with 53.
      replace (fexp 53 1024 (53 + 1 + (ex + n)) - (ex + n)) with 1 by (unfold fexp, emin; lia).
      destruct (shr_m_pos (shr_record_of_loc (2 ^ 53) loc_Exact) (ex + n) 1) as [Hm' He'];
        [simpl; lia|lia|].
      destruct (shr (shr_record_of_loc (2 ^ 53) loc_Exact) (ex + n) 1) as [r2 e2].
      simpl in Hm', He'. subst e2. exists r2, 1. split; [reflexivity|right].
      rewrite Hm'. split; [reflexivity|split; reflexivity].
    - assert (Hl2 : Z.log2 (Zpos p2) = 52).
      { apply Z.log2_unique; [lia|]. change (Z.succ 52) with 53. lia. }
      rewrite Hl2.
      replace (fexp 53 1024 (52 + 1 + (ex + n)) - (ex + n)) with 0 by (unfold fexp, emin; lia).
      exists (shr_record_of_loc (Zpos p2) loc_Exact), 0. split; [unfold shr; f_equal; lia|left].
      split; [reflexivity|split; [reflexivity|lia]]. }
  destruct HB as (r2 & k & -> & Hk). cbv beta iota.
  assert (Hr2 : 2 ^ 52 <= shr_m r2 < 2 ^ 53) by lia.
  destruct (shr_m r2) as [|M|M] eqn:EM; try lia.
  replace (ex + n + k <=? 1024 - 53) with true by (symmetry; apply Z.leb_le; lia).
  exists M, (ex + n + k). split; [reflexivity|].
  split; [exact Hr2|]. split; [lia|].
  replace (ex + n + k - ex) with (k + n) by lia. rewrite Z.pow_add_r by lia.
  fold n.
  destruct Hk as [(-> & HM & _)|(-> & HM & Htop)].
  - rewrite HM. change (2 ^ 0) with 1. rewrite Z.mul_1_l. nia.
  - rewrite HM. rewrite Z.mul_assoc. change (2 ^ 52 * 2 ^ 1) with (2 ^ 53). rewrite <- Htop. nia.
Qed.

Lemma sqrt_core (m : positive) (e : Z) :
  2 ^ 52 <= Zpos m < 2 ^ 53 -> -1074 <= e ->
  exists l, SFsqrt_core_binary 53 1024 (Zpos m) e =
    (Z.sqrt (Zpos m * 2 ^ (e - 2 * (Z.div2 e - 26))), Z.div2 e - 26, l).
Proof.
  intros Hm He. unfold SFsqrt_core_binary. rewrite Zdigits2_log2.
  replace (Z.log2 (Zpos m)) with 52 by (symmetry; apply Z.log2_unique; lia).
  replace (Z.min (fexp 53 1024 (Z.div2 (52 + 1 + e + 1))) (Z.div2 e)) with (Z.div2 e - 26)
    by (unfold fexp, emin; rewrite !Z.div2_div; Z.to_euclidean_division_equations; lia).
  assert (Hs : 52 <= e - 2 * (Z.div2 e - 26) <= 53)
    by (rewrite Z.div2_div; Z.to_euclidean_division_equations; lia).
  destruct (e - 2 * (Z.div2 e - 26)) as [|p|p] eqn:Es; try lia.
  rewrite Z.shiftl_mul_pow2 by lia.
  pose proof (Z.sqrtrem_sqrt (Zpos m * 2 ^ Zpos p)) as Hq.
  destruct (Z.sqrtrem (Zpos m * 2 ^ Zpos p)) as [q r]. simpl in Hq. subst q. eauto.
Qed.

Lemma div_core (m p : positive) (e f : Z) :
  2 ^ 52 <= Zpos m < 2 ^ 53 -> 2 ^ 52 <= Zpos p < 2 ^ 53 -> -1021 <= e - f ->
  exists l, SFdiv_core_binary 53 1024 (Zpos m) e (Zpos p) f =
    (Zpos m * 2 ^ 53 / Zpos p, e - f - 53, l).
Proof.
  intros Hm Hp Hef. unfold SFdiv_core_binary. rewrite !Zdigits2_log2.
  replace (Z.log2 (Zpos m)) with 52 by (symmetry; apply Z.log2_unique; lia).
  replace (Z.log2 (Zpos p)) with 52 by (symmetry; apply Z.log2_unique; lia).
  replace (Z.min (fexp 53 1024 (52 + 1 + e - (52 + 1 + f))) (e - f)) with (e - f - 53)
    by (unfold fexp, emin; lia).
  replace (e - f - (e - f - 53)) with 53 by lia.
  rewrite Z.shiftl_mul_pow2 by lia.
  destruct (Z.div_eucl (Zpos m * 2 ^ 53) (Zpos p)) as [q r] eqn:Hd.
  assert (Hq : q = Zpos m * 2 ^ 53 / Zpos p) by (unfold Z.div; rewrite Hd; reflexivity).
  subst q. eauto.
Qed.

(** Relative error of each step, as integer inequalities. *)
Lemma err_sqrt (m' q R' : Z) :
  q * q <= m' < (q + 1) * (q + 1) -> 2 ^ 52 <= q -> q <= R' <= q + 1 ->
  (2 ^ 52 - 3) * m' <= 2 ^ 52 * (R' * R') <= (2 ^ 52 + 3) * m'.
Proof.
  intros [H1 H2] Hq [H3 H4].
  assert (Hq2 : q * q <= R' * R' <= (q + 1) * (q + 1)) by nia.
  assert (H5 : 2 ^ 52 * (2 * q + 1) <= 3 * m') by nia.
  nia.
Qed.

Lemma err_round (x W u : Z) :
  x - u < W <= x + u -> 0 <= u -> 2 ^ 52 * u <= x ->
  (2 ^ 52 - 1) * x <= 2 ^ 52 * W <= (2 ^ 52 + 1) * x.
Proof. intros. nia. Qed.

Lemma err_div (m P q W u : Z) :
  q * P <= m * 2 ^ 53 < (q + 1) * P -> q - u < W <= q + u -> 2 ^ 52 * u <= q ->
  0 < P -> 0 <= u ->
  m * (2 ^ 53 - 2) <= W * P <= m * (2 ^ 53 + 2).
Proof.
  intros [H1 H2] [H3 H4] H5 HP Hu.
  assert (H6 : u * P <= 2 * m).
  { assert (2 ^ 52 * (u * P) <= 2 ^ 52 * (2 * m)) by nia. lia. }
  split; nia.
Qed.

Lemma err_combine (A B C m' : Z) :
  B * (2 ^ 53 - 2) <= A * 2 ^ 53 <= B * (2 ^ 53 + 2) ->
  (2 ^ 52 - 1) * (2 ^ 52 - 3) * m' <= 2 ^ 104 * C <= (2 ^ 52 + 1) * (2 ^ 52 + 3) * m' ->
  0 <= B -> 0 <= C -> 0 <= m' -> 0 <= A ->
  (2 ^ 49 - 1) * (B * C) <= 2 ^ 49 * (A * m') <= (2 ^ 49 + 1) * (B * C).
Proof.
  intros [HA1 HA2] [HC1 HC2] HB HC Hm HA.
  set (c1 := (2 ^ 52 - 1) * (2 ^ 52 - 3)) in *.
  set (c2 := (2 ^ 52 + 1) * (2 ^ 52 + 3)) in *.
  split.
  - assert (Hm1 : (A * 2 ^ 53) * (c2 * m') >= (B * (2 ^ 53 - 2)) * (2 ^ 104 * C)).
    { apply Z.le_ge, Z.mul_le_mono_nonneg; lia. }
    assert (Hc : (2 ^ 49 - 1) * 2 ^ 53 * c2 <= 2 ^ 49 * (2 ^ 53 - 2) * 2 ^ 104)
      by (subst c2; lia).
    assert (Hk : 0 < 2 ^ 53 * c2) by (subst c2; lia).
    apply (Z.mul_le_mono_pos_r _ _ (2 ^ 53 * c2) Hk).
    assert (Hbc : 0 <= B * C) by lia.
    nia.
  - assert (Hm1 : (A * 2 ^ 53) * (c1 * m') <= (B * (2 ^ 53 + 2)) * (2 ^ 104 * C)).
    { apply Z.mul_le_mono_nonneg; subst c1; lia. }
    assert (Hc : 2 ^ 49 * (2 ^ 53 + 2) * 2 ^ 104 <= (2 ^ 49 + 1) * 2 ^ 53 * c1)
      by (subst c1; lia).
    assert (Hk : 0 < 2 ^ 53 * c1) by (subst c1; lia).
    apply (Z.mul_le_mono_pos_r _ _ (2 ^ 53 * c1) Hk).
    assert (Hbc : 0 <= B * C) by lia.
    nia.
Qed.

Lemma pow2_pos k : 0 <= k -> 0 < 2 ^ k.
Proof. intros. apply Z.pow_pos_nonneg; lia. Qed.

Lemma log2_bounds x a : 2 ^ a <= x < 2 ^ (a + 1) -> 0 <= a -> Z.log2 x = a.
Proof. intros. apply Z.log2_unique; [lia|]. rewrite <- Z.add_1_r. lia. Qed.

(** [v / (sqrt v * sqrt v)] for a float [v = m * 2^e] of the normal
    range below [2^1022]: the quotient is [1 - k * 2^-53] for some
    [k <= 16], or [1 + k * 2^-52] for some [k <= 8]. *)
Lemma self_ratio_normal (m : positive) (e : Z) :
  2 ^ 52 <= Zpos m < 2 ^ 53 -> -1074 <= e -> (e < 970 \/ e = 970 /\ Zpos m = 2 ^ 52) ->
  exists R E1 P E2 M E,
    SF64sqrt (S754_finite false m e) = S754_finite false R E1 /\
    SF64mul (S754_finite false R E1) (S754_finite false R E1) = S754_finite false P E2 /\
    SF64div (S754_finite false m e) (S754_finite false P E2) = S754_finite false M E /\
    (E = -53 /\ 2 ^ 53 - 16 <= Zpos M \/ E = -52 /\ Zpos M <= 2 ^ 52 + 8).
Proof.
  intros Hm He Htop.
  set (e' := Z.div2 e - 26).
  assert (He' : 2 * e' + 52 <= e <= 2 * e' + 53)
    by (subst e'; rewrite Z.div2_div; Z.to_euclidean_division_equations; lia).
  assert (He'2 : -1074 <= 2 * e' + 52)
    by (subst e'; rewrite Z.div2_div; Z.to_euclidean_division_equations; lia).
  set (s := e - 2 * e').
  set (m' := Zpos m * 2 ^ s).
  assert (Hps : 2 ^ 52 <= 2 ^ s <= 2 ^ 53) by (split; apply Z.pow_le_mono_r; lia).
  assert (Hm' : 2 ^ 104 <= m' < 2 ^ 106) by (subst m'; nia).
  set (q := Z.sqrt m').
  assert (Hq : q * q <= m' < (q + 1) * (q + 1)).
  { pose proof (Z.sqrt_spec m' ltac:(lia)) as Hsq. unfold Z.succ in Hsq. exact Hsq. }
  assert (Hqb : 2 ^ 52 <= q < 2 ^ 53) by nia.
  (* sqrt *)
  destruct (sqrt_core m e Hm He) as [l1 Hc1].
  assert (Hl1 : Z.log2 q = 52) by (apply log2_bounds; lia).
  destruct (round_aux_normal q e' l1) as (R & E1 & HR & HRb & HE1 & HRq); try lia.
  rewrite Hl1 in HE1, HRq. replace (52 - 52) with 0 in HRq by lia. change (2 ^ 0) with 1 in HRq.
  set (t := E1 - e') in *.
  assert (Ht : 0 <= t <= 1) by lia.
  set (R' := Zpos R * 2 ^ t) in *.
  assert (HsR : (2 ^ 52 - 3) * m' <= 2 ^ 52 * (R' * R') <= (2 ^ 52 + 3) * m')
    by (apply (err_sqrt m' q R'); lia).
  assert (Hsqrt : SF64sqrt (S754_finite false m e) = S754_finite false R E1).
  { unfold SF64sqrt, SFsqrt. change prec with 53. change emax with 1024.
    rewrite Hc1. exact HR. }
  (* mul *)
  set (x2 := Zpos R * Zpos R).
  assert (Hx2 : 2 ^ 104 <= x2 < 2 ^ 106) by (subst x2; nia).
  assert (Hl2 : 104 <= Z.log2 x2 <= 105).
  { split; [apply Z.log2_le_pow2; lia|].
    assert (Z.log2 x2 < 106) by (apply Z.log2_lt_pow2; lia). lia. }
  set (K := 1022 - 2 * e').
  assert (HmK : m' <= 2 ^ K).
  { subst m' K. replace (1022 - 2 * e') with ((1022 - e) + s) by (subst s; lia).
    rewrite Z.pow_add_r by lia. apply Z.mul_le_mono_nonneg_r; [lia|].
    destruct Htop as [Hlt|[-> Heq]].
    - assert (2 ^ 53 <= 2 ^ (1022 - e)) by (apply Z.pow_le_mono_r; lia). lia.
    - rewrite Heq. reflexivity. }
  assert (HK : 104 <= K).
  { destruct (Z.lt_ge_cases K 104) as [h|h]; [|exact h].
    assert (2 ^ K <= 2 ^ 103) by (apply Z.pow_le_mono_r; lia). lia. }
  assert (HR'2 : R' * R' = x2 * 2 ^ (2 * t)).
  { subst R' x2. replace (2 * t) with (t + t) by lia. rewrite Z.pow_add_r by lia. ring. }
  assert (HlR' : Z.log2 (R' * R') <= K).
  { assert (Hlt : R' * R' < 2 ^ (K + 1)).
    { rewrite Z.pow_add_r by lia.
      assert (2 ^ 54 <= 2 ^ K) by (apply Z.pow_le_mono_r; lia). nia. }
    apply Z.log2_lt_pow2 in Hlt; [lia|]. nia. }
  rewrite HR'2, Z.log2_mul_pow2 in HlR' by lia.
  assert (HKe : 2 * e' + K = 1022) by (unfold K; lia).
  destruct (round_aux_normal x2 (E1 + E1) loc_Exact) as (P & E2 & HP & HPb & HE2 & HPx); try lia.
  assert (Hmul : SF64mul (S754_finite false R E1) (S754_finite false R E1) = S754_finite false P E2).
  { unfold SF64mul, SFmul. change prec with 53. change emax with 1024. exact HP. }
  set (n2 := Z.log2 x2 - 52) in *.
  assert (Hn2 : 2 ^ 52 * 2 ^ n2 <= x2).
  { rewrite <- Z.pow_add_r by lia. replace (52 + n2) with (Z.log2 x2) by lia.
    apply Z.log2_spec. lia. }
  set (W2 := Zpos P * 2 ^ (E2 - (E1 + E1))) in *.
  pose proof (err_round x2 W2 (2 ^ n2) HPx ltac:(pose proof (pow2_pos n2); lia) Hn2) as HW2.
  set (C := W2 * 2 ^ (2 * t)).
  set (Y := R' * R') in *.
  assert (HCY : (2 ^ 52 - 1) * Y <= 2 ^ 52 * C <= (2 ^ 52 + 1) * Y).
  { assert (HY : Y = x2 * 2 ^ (2 * t)) by exact HR'2.
    rewrite HY. unfold C. pose proof (pow2_pos (2 * t) ltac:(lia)) as Hp.
    destruct HW2 as [h1 h2].
    apply (Z.mul_le_mono_nonneg_r _ _ (2 ^ (2 * t))) in h1; [|lia].
    apply (Z.mul_le_mono_nonneg_r _ _ (2 ^ (2 * t))) in h2; [|lia].
    rewrite <- !Z.mul_assoc in h1, h2. lia. }
  assert (HC : (2 ^ 52 - 1) * (2 ^ 52 - 3) * m' <= 2 ^ 104 * C <= (2 ^ 52 + 1) * (2 ^ 52 + 3) * m')
    by lia.
  (* div *)
  assert (HPb' : 2 ^ 52 <= Zpos P < 2 ^ 53) by exact HPb.
  destruct (div_core m P e E2 Hm HPb' ltac:(lia)) as [l3 Hc3].
  set (q3 := Zpos m * 2 ^ 53 / Zpos P) in *.
  assert (Hq3 : q3 * Zpos P <= Zpos m * 2 ^ 53 < (q3 + 1) * Zpos P).
  { pose proof (Z.div_mod (Zpos m * 2 ^ 53) (Zpos P) ltac:(lia)).
    pose proof (Z.mod_pos_bound (Zpos m * 2 ^ 53) (Zpos P) ltac:(lia)). unfold q3. lia. }
  assert (Hq3b : 2 ^ 52 <= q3 < 2 ^ 54).
  { split.
    - destruct (Z.lt_ge_cases q3 (2 ^ 52)) as [h|h]; [|exact h].
      assert (Hc : (q3 + 1) * Zpos P <= 2 ^ 52 * Zpos P)
        by (apply Z.mul_le_mono_nonneg_r; lia).
      lia.
    - destruct (Z.lt_ge_cases q3 (2 ^ 54)) as [h|h]; [exact h|].
      assert (Hc : 2 ^ 54 * Zpos P <= q3 * Zpos P)
        by (apply Z.mul_le_mono_nonneg_r; lia).
      lia. }
  assert (Hl3 : 52 <= Z.log2 q3 <= 53).
  { split; [apply Z.log2_le_pow2; lia|].
    assert (Z.log2 q3 < 54) by (apply Z.log2_lt_pow2; lia). lia. }
  set (e'' := e - E2 - 53) in *.
  destruct (round_aux_normal q3 e'' l3) as (M & E & HM & HMb & HE & HMq); try lia.
  assert (Hdiv : SF64div (S754_finite false m e) (S754_finite false P E2) = S754_finite false M E).
  { unfold SF64div, SFdiv. change prec with 53. change emax with 1024. rewrite Hc3. exact HM. }
  exists R, E1, P, E2, M, E. split; [exact Hsqrt|]. split; [exact Hmul|]. split; [exact Hdiv|].
  set (n3 := Z.log2 q3 - 52) in *.
  assert (Hn3 : 2 ^ 52 * 2 ^ n3 <= q3).
  { rewrite <- Z.pow_add_r by lia. replace (52 + n3) with (Z.log2 q3) by lia.
    apply Z.log2_spec. lia. }
  set (W3 := Zpos M * 2 ^ (E - e'')) in *.
  pose proof (err_div (Zpos m) (Zpos P) q3 W3 (2 ^ n3) Hq3 HMq Hn3 ltac:(lia)
                ltac:(pose proof (pow2_pos n3); lia)) as HA.
  assert (HCpos : 0 <= C).
  { unfold C, W2. pose proof (pow2_pos (2 * t) ltac:(lia)).
    pose proof (pow2_pos (E2 - (E1 + E1)) ltac:(lia)). apply Z.mul_nonneg_nonneg; [|lia].
    apply Z.mul_nonneg_nonneg; lia. }
  assert (HApos : 0 <= W3 * Zpos P).
  { unfold W3. assert (0 <= E - e'') by lia. pose proof (pow2_pos (E - e'') ltac:(lia)).
    apply Z.mul_nonneg_nonneg; [apply Z.mul_nonneg_nonneg|]; lia. }
  pose proof (err_combine (W3 * Zpos P) (Zpos m * 2 ^ 53) C m' ltac:(lia) HC
                ltac:(lia) HCpos ltac:(lia) HApos) as Hcomb.
  assert (Hn2b : 52 <= n2 <= 53) by (unfold n2; lia).
  assert (Hn3b : 0 <= n3 <= 1) by (unfold n3; lia).
  assert (Hs' : s = e - 2 * e') by reflexivity.
  assert (Ht' : t = E1 - e') by reflexivity.
  assert (He''' : e'' = e - E2 - 53) by reflexivity.
  assert (Hd : 50 <= - E <= 57) by lia.
  assert (Ha : 0 <= E - e'') by lia.
  assert (Hb : 0 <= E2 - (E1 + E1)) by lia.
  set (G := E - e'' + s).
  assert (E1' : W3 * Zpos P * m' = Zpos m * Zpos P * 2 ^ G * Zpos M).
  { unfold W3, m', G. rewrite Z.pow_add_r by lia. ring. }
  assert (E2' : Zpos m * 2 ^ 53 * C = Zpos m * Zpos P * 2 ^ G * 2 ^ (- E)).
  { unfold C, W2, G.
    assert (Hp : 2 ^ 53 * (2 ^ (E2 - (E1 + E1)) * 2 ^ (2 * t)) = 2 ^ (E - e'' + s) * 2 ^ (- E))
      by (rewrite <- !Z.pow_add_r by lia; f_equal; lia).
    transitivity (Zpos m * Zpos P * (2 ^ 53 * (2 ^ (E2 - (E1 + E1)) * 2 ^ (2 * t)))); [ring|].
    rewrite Hp. ring. }
  rewrite E1', E2' in Hcomb.
  set (Z0 := Zpos m * Zpos P * 2 ^ G) in Hcomb.
  assert (HZ0 : 0 < Z0).
  { unfold Z0. pose proof (pow2_pos G ltac:(lia)). apply Z.mul_pos_pos; [|lia].
    apply Z.mul_pos_pos; lia. }
  assert (Hfin : (2 ^ 49 - 1) * 2 ^ (- E) <= 2 ^ 49 * Zpos M <= (2 ^ 49 + 1) * 2 ^ (- E)).
  { destruct Hcomb as [c1 c2]. split.
    - apply (Z.mul_le_mono_pos_l _ _ Z0 HZ0). lia.
    - apply (Z.mul_le_mono_pos_l _ _ Z0 HZ0). lia. }
  clear - Hfin Hd HMb.
  assert (Hc : - E = 50 \/ - E = 51 \/ - E = 52 \/ - E = 53 \/ - E = 54 \/ - E = 55 \/
               - E = 56 \/ - E = 57) by lia.
  destruct Hc as [Hc|[Hc|[Hc|[Hc|[Hc|[Hc|[Hc|Hc]]]]]]]; rewrite Hc in Hfin; lia.
Qed.

Lemma Pos_compare_Z (a b : positive) : Pos.compare_cont Eq a b = Z.compare (Zpos a) (Zpos b).
Proof. reflexivity. Qed.

(** A float of the normal range up to [2^1022], as its mantissa and
    exponent. *)
Lemma normal_float_repr (S : float) :
  PrimFloat.leb 0x1p-1022%float S = true -> PrimFloat.leb S 0x1p1022%float = true ->
  exists m e, Prim2SF S = S754_finite false m e /\ 2 ^ 52 <= Zpos m < 2 ^ 53 /\ -1074 <= e /\
    (e < 970 \/ e = 970 /\ Zpos m = 2 ^ 52).
Proof.
  rewrite !leb_spec. intros H1 H2.
  change (Prim2SF 0x1p-1022%float) with (S754_finite false 4503599627370496 (-1074)) in H1.
  change (Prim2SF 0x1p1022%float) with (S754_finite false 4503599627370496 970) in H2.
  pose proof (Prim2SF_valid S) as Hv.
  destruct (Prim2SF S) as [s|s| |s m e];
    [destruct s; cbv in H1; discriminate H1
    |destruct s; cbv in H1, H2; discriminate
    |cbv in H1; discriminate H1
    |destruct s; [cbv in H1; discriminate H1|]].
  exists m, e. split; [reflexivity|].
  unfold SFleb, SFcompare in H1, H2. rewrite !Pos_compare_Z in H1, H2.
  unfold SpecFloat.valid_binary, bounded, canonical_mantissa in Hv.
  apply andb_prop in Hv as [Hc _]. apply Z.eqb_eq in Hc.
  change (Zpos (digits2_pos m)) with (Zdigits2 (Zpos m)) in Hc.
  rewrite Zdigits2_log2 in Hc. unfold fexp, emin, prec, emax in Hc.
  assert (Hlog : Z.log2 (Zpos m) = 52 -> 2 ^ 52 <= Zpos m < 2 ^ 53).
  { intros Hl. pose proof (Z.log2_spec (Zpos m) ltac:(lia)) as Hs. rewrite Hl in Hs. exact Hs. }
  assert (Hl : Z.log2 (Zpos m) = 52).
  { destruct (Z.compare (-1074) e) eqn:Ec; try discriminate H1.
    - apply Z.compare_eq in Ec. subst e.
      destruct (Z.compare 4503599627370496 (Zpos m)) eqn:Em; try discriminate H1.
      + apply Z.compare_eq in Em. rewrite <- Em. reflexivity.
      + pose proof (proj1 (Z.compare_lt_iff _ _) Em) as Em'.
        assert (52 <= Z.log2 (Zpos m)) by (apply Z.log2_le_pow2; lia). lia.
    - pose proof (proj1 (Z.compare_lt_iff _ _) Ec) as Ec'. lia. }
  specialize (Hlog Hl). split; [exact Hlog|].
  assert (He : -1074 <= e).
  { destruct (Z.compare (-1074) e) eqn:Ec; try discriminate H1.
    - apply Z.compare_eq in Ec. lia.
    - pose proof (proj1 (Z.compare_lt_iff _ _) Ec) as Ec'. lia. }
  split; [exact He|].
  destruct (Z.compare e 970) eqn:Ec; try discriminate H2.
  - apply Z.compare_eq in Ec. subst e. right. split; [reflexivity|].
    destruct (Z.compare (Zpos m) 4503599627370496) eqn:Em; try discriminate H2.
    + apply Z.compare_eq in Em. exact Em.
    + pose proof (proj1 (Z.compare_lt_iff _ _) Em) as Em'. lia.
  - pose proof (proj1 (Z.compare_lt_iff _ _) Ec) as Ec'. left. exact Ec.
Qed.

(** [v / (sqrt v * sqrt v)] is within [2^-49] of [1.0] for every float
    [v] of the normal range up to [2^1022]. *)
Lemma self_ratio (S : float) :
  PrimFloat.leb 0x1p-1022%float S = true -> PrimFloat.leb S 0x1p1022%float = true ->
  PrimFloat.eqb (PrimFloat.sqrt S) 0%float = false /\
  PrimFloat.leb 0x1.ffffffffffff0p-1%float
    (PrimFloat.div S (PrimFloat.mul (PrimFloat.sqrt S) (PrimFloat.sqrt S))) = true /\
  PrimFloat.leb (PrimFloat.div S (PrimFloat.mul (PrimFloat.sqrt S) (PrimFloat.sqrt S)))
    0x1.0000000000008p+0%float = true.
Proof.
  intros H1 H2.
  destruct (normal_float_repr S H1 H2) as (m & e & HS & Hm & He & Htop).
  destruct (self_ratio_normal m e Hm He Htop)
    as (R & E1 & P & E2 & M & E & Hsq & Hmul & Hdiv & HME).
  assert (Hr : Prim2SF (PrimFloat.sqrt S) = S754_finite false R E1)
    by (rewrite sqrt_spec, HS; exact Hsq).
  assert (Hp : Prim2SF (PrimFloat.mul (PrimFloat.sqrt S) (PrimFloat.sqrt S)) = S754_finite false P E2)
    by (rewrite mul_spec, Hr; exact Hmul).
  assert (Hd : Prim2SF (PrimFloat.div S (PrimFloat.mul (PrimFloat.sqrt S) (PrimFloat.sqrt S)))
               = S754_finite false M E)
    by (rewrite div_spec, Hp, HS; exact Hdiv).
  split; [|split].
  - rewrite FloatAxioms.eqb_spec, Hr. reflexivity.
  - rewrite FloatAxioms.leb_spec, Hd.
    change (Prim2SF 0x1.ffffffffffff0p-1%float) with (S754_finite false 9007199254740976 (-53)).
    unfold SFleb, SFcompare. rewrite Pos_compare_Z.
    destruct HME as [[-> HM]|[-> HM]]; simpl Z.compare; [|reflexivity].
    destruct (Pos.compare 9007199254740976 M) eqn:Hc; [reflexivity|reflexivity|].
    apply Pos.compare_gt_iff, Pos2Z.pos_lt_pos in Hc. clear - Hc HM. lia.
  - rewrite FloatAxioms.leb_spec, Hd.
    change (Prim2SF 0x1.0000000000008p+0%float) with (S754_finite false 4503599627370504 (-52)).
    unfold SFleb, SFcompare. rewrite Pos_compare_Z.
    destruct HME as [[-> HM]|[-> HM]]; simpl Z.compare; [reflexivity|].
    destruct (Pos.compare M 4503599627370504) eqn:Hc; [reflexivity|reflexivity|].
    apply Pos.compare_gt_iff, Pos2Z.pos_lt_pos in Hc. clear - Hc HM. lia.
Qed.

End FloatFacts.

Lemma self_dot_terms (v : list float) :
  map (fun xy => PrimFloat.mul xy.1 xy.2) (zip v v) = map (fun x => PrimFloat.mul x x) v.
Proof. induction v as [|x v IH]; [reflexivity|]. cbn. by rewrite IH. Qed.

(* ================================================================== *)
(** * The claims *)

(** C7: the similarity threshold is [os.getenv("SIMILARITY_THRESHOLD",
    "0.92")] read as a float: an unparseable value gives the default 0.92,
    a parsed value [v] is clamped into [0, 1] ([v] itself strictly inside,
    0 below, 1 above), so the resolved threshold always lies in [0, 1]. *)
Theorem similarity_threshold_resolution (parse_float : pystr -> option float)
    (env : option pystr) :
  let raw := default (lit "0.92") env in
  let t := get_similarity_threshold parse_float env in
  PrimFloat.leb 0 t = true /\ PrimFloat.leb t 1 = true /\
  (parse_float raw = None -> t = DEFAULT_SIMILARITY_THRESHOLD) /\
  (forall v, parse_float raw = Some v ->
     (PrimFloat.ltb 0 v = true -> PrimFloat.ltb v 1 = true -> t = v) /\
     (PrimFloat.ltb v 0 = true -> t = 0%float) /\
     (PrimFloat.ltb 1 v = true -> t = 1%float) /\
     (v = 0%float -> t = 0%float) /\
     (v = 1%float -> t = 1%float)).
Proof.
  cbv zeta. unfold get_similarity_threshold.
  destruct (parse_float (default (lit "0.92") env)) as [v|] eqn:Hv.
  - unfold py_max, py_min. split; [|split; [|split]].
    + destruct (PrimFloat.ltb v 1) eqn:H1; [destruct (PrimFloat.ltb 0 v) eqn:H0|];
        [by apply float_ltb_leb|reflexivity|reflexivity].
    + destruct (PrimFloat.ltb v 1) eqn:H1; [destruct (PrimFloat.ltb 0 v) eqn:H0|];
        [by apply float_ltb_leb|reflexivity|reflexivity].
    + discriminate.
    + intros v' [= <-]. split; [|split; [|split; [|split]]].
      * intros H0 H1. by rewrite H1, H0.
      * intros Hn. rewrite (float_ltb_0_1 v Hn), (float_ltb_asym v 0 Hn). reflexivity.
      * intros Hp. rewrite (float_ltb_asym 1 v Hp). reflexivity.
      * intros ->. reflexivity.
      * intros ->. reflexivity.
  - split; [reflexivity|split; [reflexivity|split; [reflexivity|]]]. discriminate.
Qed.

(** C5 (corrected): [cosine_similarity] is the floating-point quotient
    [dot / (norm_a * norm_b)] of the computed dot product and norms, and
    exactly 0.0 when either computed norm is 0.0 (in particular for a zero
    vector); it is symmetric for all vectors; and it is reflexive up to
    [2^-49]: [similarity(v, v)] lies in [[1 - 2^-49, 1 + 2^-49]] for every
    [v] whose computed squared norm [sum(x * x for x in v)] lies in
    [[2^-1022, 2^1022]].  Reflexivity fails for nonzero vectors whose
    squared norm leaves the binary64 range: see [cosine_reflexivity_fails]. *)
Theorem cosine_similarity_spec (a b : list float) :
  let dot := py_sum (map (fun xy => PrimFloat.mul xy.1 xy.2) (zip a b)) in
  let norm_a := PrimFloat.sqrt (py_sum (map (fun x => PrimFloat.mul x x) a)) in
  let norm_b := PrimFloat.sqrt (py_sum (map (fun x => PrimFloat.mul x x) b)) in
  cosine_similarity a b = cosine_similarity b a /\
  (PrimFloat.eqb norm_a 0 = true \/ PrimFloat.eqb norm_b 0 = true ->
   cosine_similarity a b = 0%float) /\
  (PrimFloat.eqb norm_a 0 = false -> PrimFloat.eqb norm_b 0 = false ->
   cosine_similarity a b = PrimFloat.div dot (PrimFloat.mul norm_a norm_b)) /\
  (forall k, cosine_similarity (repeat 0%float k) b = 0%float /\
             cosine_similarity a (repeat 0%float k) = 0%float) /\
  (forall v : list float,
     let sq := py_sum (map (fun x => PrimFloat.mul x x) v) in
     PrimFloat.leb 0x1p-1022%float sq = true -> PrimFloat.leb sq 0x1p1022%float = true ->
     PrimFloat.leb 0x1.ffffffffffff0p-1%float (cosine_similarity v v) = true /\
     PrimFloat.leb (cosine_similarity v v) 0x1.0000000000008p+0%float = true).
Proof.
  cbv zeta. split; [|split; [|split; [|split]]].
  - unfold cosine_similarity.
    rewrite (dot_terms_comm b a), orb_comm,
      (float_mul_comm (PrimFloat.sqrt (py_sum (map (fun x => PrimFloat.mul x x) b)))).
    reflexivity.
  - unfold cosine_similarity. intros [-> | ->]; [reflexivity|]. by rewrite orb_true_r.
  - unfold cosine_similarity. intros -> ->. reflexivity.
  - intros k. unfold cosine_similarity. rewrite !norm_zero_vector.
    split; [reflexivity|]. by rewrite orb_true_r.
  - intros v H1 H2.
    destruct (FloatFacts.self_ratio _ H1 H2) as (Hz & Hlo & Hhi).
    unfold cosine_similarity. rewrite self_dot_terms, Hz. cbn [orb].
    split; assumption.
Qed.

(** C5: the reflexivity bound applied to the vector [[0.6; 0.8]]. *)
Lemma cosine_similarity_spec_witness :
  PrimFloat.leb 0x1.ffffffffffff0p-1%float (cosine_similarity [0.6; 0.8]%float [0.6; 0.8]%float) = true /\
  PrimFloat.leb (cosine_similarity [0.6; 0.8]%float [0.6; 0.8]%float) 0x1.0000000000008p+0%float = true.
Proof.
  apply (proj2 (proj2 (proj2 (proj2 (cosine_similarity_spec [] [])))) [0.6; 0.8]%float);
    vm_compute; reflexivity.
Defined.

(** C5: a nonzero vector whose squared norm underflows has similarity 0.0
    with itself, and one whose squared norm overflows has similarity NaN. *)
Lemma cosine_reflexivity_fails :
  cosine_similarity [1e-200%float] [1e-200%float] = 0%float /\
  PrimFloat.is_nan (cosine_similarity [1e200%float] [1e200%float]) = true.
Proof. split; vm_compute; reflexivity. Qed.

(** C9: [_resolve_client] tests the truthiness of the per-call credential:
    a credential that is absent ([None]) or the empty string falls back to the process-wide [get_client] (which raises
    the configuration error when neither [OPENROUTER_API_KEY] nor
    [OPENAI_API_KEY] is set and no client is cached), while every other
    string, whitespace-only included, is used verbatim as the key of a
    fresh OpenAI client; no whitespace-only credential is treated as
    absent. *)
Theorem resolve_client_spec (env : Env) (cache : option Client) (key : pystr) :
  resolve_client env None cache = get_client env cache /\
  resolve_client env (Some []) cache = get_client env cache /\
  (key ≠ [] -> resolve_client env (Some key) cache = (inr (OpenAIClient key), cache)) /\
  (truthy (OPENROUTER_API_KEY env) = false -> truthy (OPENAI_API_KEY env) = false ->
   get_client env None = (inl ConfigError, None)).
Proof.
  split; [reflexivity|split; [reflexivity|split]].
  - intros Hk. unfold resolve_client. by destruct key.
  - intros H1 H2. unfold get_client. by rewrite H1, H2.
Qed.

(** C9: with no default credential configured, the whitespace-only key
    ["   "] is not treated as absent: it yields a client with that key
    where the absent key raises the configuration error, and a whole
    [run_stripe_analysis] with [api_key="   "] succeeds, every provider
    call going to the client keyed ["   "]. *)
Lemma whitespace_key_not_absent :
  let env0 := {| OPENROUTER_API_KEY := None; OPENAI_API_KEY := None;
                 SIMILARITY_THRESHOLD := None |} in
  resolve_client env0 (Some (lit "   ")) None = (inr (OpenAIClient (lit "   ")), None) /\
  resolve_client env0 None None = (inl ConfigError, None) /\
  let r := run_stripe_analysis (list (list float)) script_complete script_embed script_parse
             env0 (lit "A. B.") None (Some (lit "   ")) (mkSt [e1; e1; e1; e1; e1] None []) in
  map event_client (st_log r.2) = repeat (OpenAIClient (lit "   ")) 6 /\
  match r.1 with inr _ => True | inl _ => False end.
Proof. split; [reflexivity|split; [reflexivity|]]. vm_compute. split; [reflexivity|exact I]. Qed.

(** C2 (corrected): when the candidate [active - {i}] is empty, the test
    makes no provider call (the state, and so the log, is unchanged) and
    returns the similarity 0.0; the Phase-1 step then discards [i] exactly
    when [0.0 >= threshold], which holds for the resolved threshold 0.0,
    so the last remaining component is not kept for every threshold. *)
Theorem phase1_empty_candidate {Oracle : Type}
    (complete : Oracle -> Client -> pystr -> option (pystr * Oracle))
    (embed : Oracle -> Client -> pystr -> option (list float * Oracle))
    (env : Env) (comps : list pystr) (base : list float) (thr : float)
    (ui k : option pystr) (i : nat) (rest : list nat) (active : gset nat) (s : St Oracle) :
  active ∖ {[i]} = ∅ ->
  test_removal_similarity Oracle complete embed env comps base ui k i active s = (inr 0%float, s) /\
  phase1 Oracle complete embed env comps base thr ui k (i :: rest) active s =
  phase1 Oracle complete embed env comps base thr ui k rest
    (if PrimFloat.leb thr 0 then active ∖ {[i]} else active) s.
Proof.
  intros Hemp.
  assert (Ht : test_removal_similarity Oracle complete embed env comps base ui k i active s
               = (inr 0%float, s)).
  { unfold test_removal_similarity. by rewrite (proj2 (py_sorted_nil _) Hemp). }
  split; [exact Ht|]. cbn [phase1]. unfold bind. by rewrite Ht.
Qed.

Lemma phase1_empty_candidate_witness :
  test_removal_similarity (list (list float)) script_complete script_embed (test_env None)
    [lit "A."] e1 None None 0 {[0%nat]} (mkSt [e1] None []) = (inr 0%float, mkSt [e1] None []) /\
  phase1 (list (list float)) script_complete script_embed (test_env None)
    [lit "A."] e1 0.92%float None None [0%nat] {[0%nat]} (mkSt [e1] None []) =
  phase1 (list (list float)) script_complete script_embed (test_env None)
    [lit "A."] e1 0.92%float None None [] {[0%nat]} (mkSt [e1] None []).
Proof.
  apply (phase1_empty_candidate script_complete script_embed (test_env None)
           [lit "A."] e1 0.92%float None None 0 [] {[0%nat]} (mkSt [e1] None [])).
  reflexivity.
Defined.

(** C2: with [SIMILARITY_THRESHOLD=0] the single component of ["A."] is
    removed, with score 1.0. *)
Lemma last_component_removed_at_threshold_zero :
  (run_script (Some (lit "0")) [e1; e1] (lit "A.")).1
  = inr {| over_engineered_score := 1%float;
           improved_prompt := lit "A.";
           components_removed := [lit "A."];
           components_kept := [];
           total_components := 1 |}.
Proof. vm_compute. reflexivity. Qed.

(** C3: Phase 3 runs exactly when [validation_sim < threshold] and the
    removed set is non-empty; it then restores the removed indices one at a
    time in ascending order ([py_sorted R] lists [R] strictly increasing),
    each step re-validating the whole candidate against the baseline, and
    stops at the first similarity [>= threshold] or after the last index
    ([restores]).  Otherwise the active set is returned with no call. *)
Theorem phase3_greedy_recovery {Oracle : Type}
    (complete : Oracle -> Client -> pystr -> option (pystr * Oracle))
    (embed : Oracle -> Client -> pystr -> option (list float * Oracle))
    (env : Env) (comps : list pystr) (base : list float) (thr : float)
    (ui k : option pystr) (vsim : float) (R active : gset nat) (s : St Oracle) :
  let '(r, s') := phase3 Oracle complete embed env comps base thr ui k vsim R active s in
  if PrimFloat.ltb vsim thr && bool_decide (R ≠ ∅) then
    StronglySorted lt (py_sorted R) /\ (forall x, x ∈ py_sorted R <-> x ∈ R) /\
    exists evs, st_log s' = st_log s ++ evs /\
      (forall a', r = inr a' -> restores base thr comps ui active (py_sorted R) evs a')
  else r = inr active /\ s' = s.
Proof.
  destruct (phase3 Oracle complete embed env comps base thr ui k vsim R active s)
    as [r s'] eqn:E.
  destruct (hoare_run _ _ _ _ _ (phase3_log complete embed env comps base thr ui k vsim R active) E)
    as (evs & Hl & HQ).
  destruct (PrimFloat.ltb vsim thr && bool_decide (R ≠ ∅)) eqn:G.
  - apply andb_true_iff in G as [_ G]. apply bool_decide_eq_true in G.
    split; [apply py_sorted_strict|]. split; [apply elem_of_py_sorted|].
    exists evs. split; [done|]. intros a' ->. apply HQ.
    intros Hn. apply py_sorted_nil in Hn. contradiction.
  - unfold phase3 in E. rewrite G in E. injection E as <- <-. done.
Qed.

(** C1: every result of [run_stripe_analysis] has [total_components =
    len(components_kept) + len(components_removed)] (the number of parsed
    components), and for a positive total the score is
    [round(len(removed) / total, 2)]; a prompt that parses to no component
    gives, with no provider call, score 0.0, total 0, empty lists and the
    prompt itself; and an empty kept list gives the prompt verbatim. *)
Theorem result_assembly {Oracle : Type}
    (complete : Oracle -> Client -> pystr -> option (pystr * Oracle))
    (embed : Oracle -> Client -> pystr -> option (list float * Oracle))
    (parse_float : pystr -> option float) (env : Env)
    (prompt : pystr) (ui k : option pystr) (s : St Oracle) :
  (parse_components prompt = [] ->
   run_stripe_analysis Oracle complete embed parse_float env prompt ui k s =
   (inr {| over_engineered_score := 0%float; improved_prompt := prompt;
           components_removed := []; components_kept := []; total_components := 0 |}, s)) /\
  match (run_stripe_analysis Oracle complete embed parse_float env prompt ui k s).1 with
  | inr res =>
      total_components res = length (components_kept res) + length (components_removed res) /\
      total_components res = length (parse_components prompt) /\
      (total_components res <> 0 ->
       over_engineered_score res =
       py_round2 (PrimFloat.div (float_of_nat (length (components_removed res)))
                                (float_of_nat (total_components res)))) /\
      (components_kept res = [] -> improved_prompt res = prompt)
  | inl _ => True
  end.
Proof.
  split.
  { intros Hp. unfold run_stripe_analysis. rewrite Hp. reflexivity. }
  destruct (run_log complete embed env parse_float prompt ui k s) as (evs & _ & HQ).
  unfold run_post in HQ. destruct (parse_components prompt) as [|c0 l0] eqn:Hp.
  - destruct HQ as [-> _]. cbn. split; [done|]. split; [done|]. split; [done|]. done.
  - destruct ((run_stripe_analysis Oracle complete embed parse_float env prompt ui k s).1)
      as [e|res]; [done|].
    destruct HQ as (b & L1 & v & L3 & R1 & R & _ & _ & _ & _ & HR1 & _ & _ & _ & HRR & ->).
    assert (HR : R ⊆ set_seq 0 (length (c0 :: l0))) by set_solver.
    destruct (finish_spec (c0 :: l0) prompt R HR)
      as (Ht & _ & _ & _ & Hsum & Hscore & Himp).
    split; [exact Hsum|]. split; [exact Ht|]. split.
    + intros _. exact Hscore.
    + intros Hk. rewrite Himp, Hk. reflexivity.
Qed.

(** C10: whenever the kept list of a result is non-empty, the improved
    prompt is the kept components joined with single spaces; so for the
    two-line prompt ["A.\nB."], where Phase 3 restores the one removed
    component and nothing stays removed (score 0.0), the improved prompt is
    ["A. B."], not the original prompt. *)
Theorem improved_prompt_is_join {Oracle : Type}
    (complete : Oracle -> Client -> pystr -> option (pystr * Oracle))
    (embed : Oracle -> Client -> pystr -> option (list float * Oracle))
    (parse_float : pystr -> option float) (env : Env)
    (prompt : pystr) (ui k : option pystr) (s : St Oracle) :
  match (run_stripe_analysis Oracle complete embed parse_float env prompt ui k s).1 with
  | inr res => components_kept res <> [] ->
               improved_prompt res = py_join space (components_kept res)
  | inl _ => True
  end /\
  (run_script None [e1; e1; e2; e2] (lit "A." ++ [newline] ++ lit "B.")).1
  = inr {| over_engineered_score := 0%float;
           improved_prompt := lit "A. B.";
           components_removed := [];
           components_kept := [lit "A."; lit "B."];
           total_components := 2 |} /\
  lit "A. B." <> lit "A." ++ [newline] ++ lit "B.".
Proof.
  split; [|split; [vm_compute; reflexivity|discriminate]].
  destruct (run_log complete embed env parse_float prompt ui k s) as (evs & _ & HQ).
  unfold run_post in HQ. destruct (parse_components prompt) as [|c0 l0] eqn:Hp.
  - destruct HQ as [-> _]. cbn. by intros [].
  - destruct ((run_stripe_analysis Oracle complete embed parse_float env prompt ui k s).1)
      as [e|res]; [done|].
    destruct HQ as (b & L1 & v & L3 & R1 & R & _ & _ & _ & _ & HR1 & _ & _ & _ & HRR & ->).
    assert (HR : R ⊆ set_seq 0 (length (c0 :: l0))) by set_solver.
    destruct (finish_spec (c0 :: l0) prompt R HR) as (_ & _ & _ & _ & _ & _ & Himp).
    intros Hk. rewrite Himp. by destruct (components_kept _).
Qed.

(** C8: a run on a prompt of [N] parsed components terminates (the
    embedding is total) and appends to the log at most [2N + 2] completion
    calls, each followed by at most one embedding call; none at all when
    [N = 0].  A successful run with [N >= 1] is exactly one baseline round
    trip of the full prompt, at most [N] Phase-1 round trips, one Phase-2
    round trip of the improved prompt of a removed set [R1 ⊆ range(N)], and
    at most [len(R1)] Phase-3 round trips. *)
Theorem oracle_call_bound {Oracle : Type}
    (complete : Oracle -> Client -> pystr -> option (pystr * Oracle))
    (embed : Oracle -> Client -> pystr -> option (list float * Oracle))
    (parse_float : pystr -> option float) (env : Env)
    (prompt : pystr) (ui k : option pystr) (s : St Oracle) :
  let comps := parse_components prompt in
  let N := length comps in
  let '(r, s') := run_stripe_analysis Oracle complete embed parse_float env prompt ui k s in
  exists evs, st_log s' = st_log s ++ evs /\
    count_complete evs <= 2 * N + 2 /\
    count_embed evs <= count_complete evs /\
    (N = 0 -> evs = []) /\
    (forall res, r = inr res -> 1 <= N ->
       count_embed evs = count_complete evs /\
       exists b L1 v L3 (R1 : gset nat),
         evs = b ++ concat L1 ++ v ++ concat L3 /\
         trip_for (build_full_prompt prompt ui) b /\
         Forall trip L1 /\ length L1 <= N /\
         R1 ⊆ set_seq 0 N /\
         trip_for (build_full_prompt
                     (build_improved_prompt (classify_components comps R1).1 prompt) ui) v /\
         Forall trip L3 /\ length L3 <= size R1).
Proof.
  cbv zeta.
  destruct (run_stripe_analysis Oracle complete embed parse_float env prompt ui k s)
    as [r s'] eqn:E.
  destruct (hoare_run _ _ _ _ _ (run_log complete embed env parse_float prompt ui k) E)
    as (evs & Hl & HQ).
  exists evs. split; [exact Hl|].
  unfold run_post in HQ. destruct (parse_components prompt) as [|c0 l0] eqn:Hp.
  { destruct HQ as [_ ->]. split; [cbv; lia|]. split; [cbv; lia|]. split; [done|].
    intros ? _ H. cbn in H. lia. }
  set (N := length (c0 :: l0)) in *.
  assert (Htrip : forall p b, trip_for p b -> count_complete b = 1 /\ count_embed b = 1)
    by (intros p b (c & o & c' & v & ->); split; reflexivity).
  destruct r as [e|res].
  - destruct HQ as (L & part & p & -> & HT & Hpt & HL).
    destruct (count_trips L HT) as [C1 C2].
    destruct (partial_trip_roundtrip_free p part Hpt) as [P1 P2].
    destruct (count_app (concat L) part) as [A1 A2].
    rewrite A1, A2, C1, C2. split; [lia|]. split; [lia|]. split; [done|].
    intros ? [=].
  - destruct HQ as (b & L1 & v & L3 & R1 & R & -> & Hb & HT1 & HL1 & HR1 & Hv & HT3 & HL3 & _).
    assert (HsR : size R1 <= N).
    { etrans; [by apply subseteq_size|]. subst N. by rewrite size_set_seq. }
    destruct (Htrip _ _ Hb) as [B1 B2]. destruct (Htrip _ _ Hv) as [V1 V2].
    destruct (count_trips L1 HT1) as [L1c L1e]. destruct (count_trips L3 HT3) as [L3c L3e].
    destruct (count_app b (concat L1 ++ v ++ concat L3)) as [X1 X2].
    destruct (count_app (concat L1) (v ++ concat L3)) as [Y1 Y2].
    destruct (count_app v (concat L3)) as [Z1 Z2].
    rewrite X1, X2, Y1, Y2, Z1, Z2, B1, B2, V1, V2, L1c, L1e, L3c, L3e.
    split; [lia|]. split; [lia|]. split; [intros; subst N; discriminate|].
    intros res' _ _. split; [reflexivity|].
    exists b, L1, v, L3, R1. repeat split; done.
Qed.

(** C4: [parse_components] is a function of the prompt alone, with
    [parse("First. Second.") = ["First.", "Second."]], [parse("") = []],
    [parse("   \n\n  ") = []] and [parse(s) = []] for every whitespace-only
    [s], [parse("no punctuation here")] the whole
    text, [parse("- a. b.\n- c.") = ["- a. b.", "- c."]]; the markers
    [-], [•], [*], [1.] and [1)] (the numeric ones followed by whitespace)
    are recognised, and any line whose stripped text starts with a marker
    is one component of the parse, whole. *)
Theorem parse_components_spec :
  parse_components (lit "First. Second.") = [lit "First."; lit "Second."] /\
  parse_components [] = [] /\
  parse_components (lit "   " ++ [newline; newline] ++ lit "  ") = [] /\
  (forall s : pystr, Forall (fun c => py_isspace c = true) s -> parse_components s = []) /\
  parse_components (lit "no punctuation here") = [lit "no punctuation here"] /\
  parse_components (lit "- a. b." ++ [newline] ++ lit "- c.") = [lit "- a. b."; lit "- c."] /\
  list_marker_match (lit "- x") = true /\
  list_marker_match (ch_bullet :: lit " x") = true /\
  list_marker_match (lit "* x") = true /\
  list_marker_match (lit "1. x") = true /\
  list_marker_match (lit "1) x") = true /\
  (forall (pre : list pystr) (l : pystr) (post : list pystr),
     Forall (fun x => newline ∉ x) (pre ++ l :: post) ->
     list_marker_match (strip l) = true ->
     exists A B, parse_components (py_join [newline] (pre ++ l :: post)) = A ++ strip l :: B).
Proof.
  repeat split; try reflexivity.
  - intros s Hs. by apply parse_components_nil_iff.
  - exact parse_marker_line.
Qed.

(** C6: Phase 1 only removes indices and Phase 3 only adds back indices of
    the removed set, so starting from [range(N)] the active set stays a
    subset of it; every Phase-1 completion request renders
    [active - {i}]; every rendering lists the components in ascending
    index order, and so do the kept and removed lists. *)
Theorem active_set_invariant {Oracle : Type}
    (complete : Oracle -> Client -> pystr -> option (pystr * Oracle))
    (embed : Oracle -> Client -> pystr -> option (list float * Oracle))
    (env : Env) (comps : list pystr) (base : list float) (thr : float)
    (ui k : option pystr) :
  (forall idxs active s a' s',
     phase1 Oracle complete embed env comps base thr ui k idxs active s = (inr a', s') ->
     a' ⊆ active) /\
  (forall idxs active s a' s',
     recovery Oracle complete embed env comps base thr ui k idxs active s = (inr a', s') ->
     active ⊆ a' /\ a' ⊆ list_to_set idxs ∪ active) /\
  (forall (R active : gset nat) s a' s',
     R ⊆ set_seq 0 (length comps) -> active ⊆ set_seq 0 (length comps) ->
     recovery Oracle complete embed env comps base thr ui k (py_sorted R) active s = (inr a', s') ->
     a' ⊆ set_seq 0 (length comps)) /\
  (forall i active s r s',
     test_removal_similarity Oracle complete embed env comps base ui k i active s = (r, s') ->
     exists evs, st_log s' = st_log s ++ evs /\
       Forall (fun e => match e with
                        | Complete _ p _ => p = build_full_prompt (render comps (active ∖ {[i]})) ui
                        | Embed _ _ _ => True
                        end) evs) /\
  (forall S : gset nat, S ⊆ set_seq 0 (length comps) ->
     render comps S = py_join space (map (comp_at comps) (filter (fun i => i ∈ S) (seq 0 (length comps))))) /\
  (forall R : gset nat, classify_components comps R =
     (map (comp_at comps) (filter (fun i => i ∉ R) (seq 0 (length comps))),
      map (comp_at comps) (filter (fun i => i ∈ R) (seq 0 (length comps))))).
Proof.
  split; [|split; [|split; [|split; [|split]]]].
  - intros idxs active s a' s' E.
    destruct (hoare_run _ _ _ _ _ (phase1_log complete embed env comps base thr ui k idxs active) E)
      as (evs & _ & [H _]). exact H.
  - intros idxs active s a' s' E.
    destruct (hoare_run _ _ _ _ _ (recovery_log complete embed env comps base thr ui k idxs active) E)
      as (evs & _ & (H1 & H2 & _)). done.
  - intros R active s a' s' HR Ha E.
    destruct (hoare_run _ _ _ _ _
                (recovery_log complete embed env comps base thr ui k (py_sorted R) active) E)
      as (evs & _ & (_ & H2 & _)).
    intros x Hx. apply H2, elem_of_union in Hx as [Hx|Hx]; [|by apply Ha].
    apply elem_of_list_to_set, elem_of_py_sorted in Hx. by apply HR.
  - intros i active s r s' E.
    destruct (hoare_run _ _ _ _ _ (test_removal_log complete embed env comps base ui k i active) E)
      as (evs & Hl & HQ).
    exists evs. split; [exact Hl|].
    destruct HQ as [(_ & _ & ->)|(_ & HQ)]; [constructor|].
    destruct r as [e|sim].
    + destruct HQ as [->|[(c & ->)|[(c & o & ->)|(c & o & c' & ->)]]]; repeat constructor.
    + destruct HQ as (c & o & c' & v & -> & _). repeat constructor.
  - intros S HS. unfold render. by rewrite (py_sorted_seq S (length comps) HS).
  - apply classify_components_seq.
Qed.

(* ================================================================== *)
(** * Further properties of the code *)

Lemma parse_components_parts (prompt c : pystr) :
  c ∈ parse_components prompt -> c ≠ [] /\ strip c = c.
Proof.
  unfold parse_components.
  destruct (flat_map line_components _) as [|c0 l] eqn:E.
  - case_bool_decide as Hb; [by intros ?%not_elem_of_nil|].
    intros ->%list_elem_of_singleton. split; [done|]. apply strip_idem.
  - rewrite <- E. intros (line & Hl & Hc)%elem_of_flat_map.
    apply list_elem_of_fmap in Hl as (l0 & -> & Hl0).
    apply list_elem_of_filter in Hl0 as [Hne _].
    unfold line_components in Hc. destruct (list_marker_match (strip l0)).
    + apply list_elem_of_singleton in Hc as ->. split; [done|]. apply strip_idem.
    + apply list_elem_of_filter in Hc as [Hc Hin].
      apply list_elem_of_fmap in Hin as (p & -> & _). split; [done|]. apply strip_idem.
Qed.

(** X1: every component [parse_components] returns is non-empty and
    already stripped ([part.strip()] and [if part], or the stripped
    prompt itself). *)
Theorem parse_components_stripped (prompt : pystr) :
  Forall (fun c => c ≠ [] /\ strip c = c) (parse_components prompt).
Proof. apply Forall_forall. intros c. apply parse_components_parts. Qed.

(** X2: [parse_components] returns no component exactly when the prompt
    is empty or whitespace only. *)
Theorem parse_components_blank (prompt : pystr) :
  parse_components prompt = [] <-> Forall (fun c => py_isspace c = true) prompt.
Proof. exact (parse_components_nil_iff prompt). Qed.

(** ** Kept, removed and the improved prompt *)

Lemma map_snd_enumerate {A} (l : list A) start :
  map snd (zip (seq start (length l)) l) = l.
Proof.
  revert start. induction l as [|x l IH]; intros start; [done|]. simpl. by rewrite IH.
Qed.

Lemma sublist_map {A B} (f : A -> B) (l1 l2 : list A) :
  l1 `sublist_of` l2 -> map f l1 `sublist_of` map f l2.
Proof. induction 1; simpl; by constructor. Qed.

(** X3: [_classify_components] splits the components without loss or
    duplication: the kept and the removed lists together are a permutation
    of the components, and each keeps the components' order. *)
Theorem classify_components_partition (comps : list pystr) (R : gset nat) :
  (classify_components comps R).1 ++ (classify_components comps R).2 ≡ₚ comps /\
  (classify_components comps R).1 `sublist_of` comps /\
  (classify_components comps R).2 `sublist_of` comps.
Proof.
  unfold classify_components, enumerate. cbn [fst snd].
  set (e := zip (seq 0 (length comps)) comps).
  assert (He : map snd e = comps) by apply map_snd_enumerate.
  split; [|split]; [| rewrite <- He; apply sublist_map, sublist_filter ..].
  rewrite <- He.
  rewrite <- map_app. apply Permutation_map.
  rewrite (list_filter_iff (fun ic : nat * pystr => ic.1 ∈ R)
             (fun ic => ¬ (ic.1 ∉ R))) by (intros; destruct (decide (x.1 ∈ R)); tauto).
  apply filter_app_complement.
Qed.

Lemma filter_ext_in {A} (P Q : A -> Prop) `{!∀ x, Decision (P x)} `{!∀ x, Decision (Q x)}
    (l : list A) :
  (forall x, x ∈ l -> P x <-> Q x) -> filter P l = filter Q l.
Proof.
  induction l as [|y l IH]; intros Hpq; [done|]. rewrite !filter_cons.
  assert (Hy : P y <-> Q y) by (apply Hpq; set_solver).
  rewrite IH by (intros; apply Hpq; set_solver).
  repeat case_decide; tauto.
Qed.

(** X4: for an active set [a] of indices below [N], the improved prompt
    built from the kept list of the removed set [range(N) - a] is the
    candidate the analysis renders and validates for [a]
    ([" ".join(components[j] for j in sorted(a))]), and the original
    prompt when [a] is empty. *)
Theorem improved_prompt_renders_active (comps : list pystr) (prompt : pystr) (a : gset nat) :
  a ⊆ set_seq 0 (length comps) ->
  build_improved_prompt (classify_components comps (set_seq 0 (length comps) ∖ a)).1 prompt
  = if bool_decide (a = ∅) then prompt else render comps a.
Proof.
  intros Ha. rewrite classify_components_seq. cbn [fst].
  rewrite (filter_ext_in _ (fun i => i ∈ a)).
  2:{ intros x Hx%elem_of_seq. rewrite elem_of_difference, elem_of_set_seq.
      destruct (decide (x ∈ a)); tauto || lia. }
  unfold render. rewrite <- (py_sorted_seq a (length comps) Ha).
  case_bool_decide as Hemp.
  - subst a. by rewrite (proj2 (py_sorted_nil ∅) eq_refl).
  - destruct (py_sorted a) eqn:E; [by apply py_sorted_nil in E|done].
Qed.

Lemma improved_prompt_renders_active_witness :
  ({[0%nat]} : gset nat) ⊆ set_seq 0 (length [lit "A."; lit "B."]) /\
  build_improved_prompt
    (classify_components [lit "A."; lit "B."] (set_seq 0 (length [lit "A."; lit "B."]) ∖ {[0%nat]})).1
    (lit "A. B.")
  = if bool_decide ({[0%nat]} = (∅ : gset nat)) then lit "A. B." else render [lit "A."; lit "B."] {[0%nat]}.
Proof.
  assert (H : ({[0%nat]} : gset nat) ⊆ set_seq 0 (length [lit "A."; lit "B."])) by (apply (bool_decide_unpack _ (dec := gset_subseteq_dec _ _)); vm_compute; reflexivity).
  split; [exact H|]. exact (improved_prompt_renders_active _ _ _ H).
Defined.

(** ** Phase 1 keeps a component under a positive threshold *)

Lemma float_ltb_leb_swap x y : PrimFloat.ltb x y = true -> PrimFloat.leb y x = false.
Proof.
  rewrite ltb_spec, leb_spec. unfold SFltb, SFleb. rewrite (SFcompare_swap (Prim2SF x)).
  destruct (SFcompare _ _) as [[]|]; done.
Qed.

Lemma phase1_nonempty {Oracle : Type}
    (complete : Oracle -> Client -> pystr -> option (pystr * Oracle))
    (embed : Oracle -> Client -> pystr -> option (list float * Oracle))
    (env : Env) (comps : list pystr) (base : list float) (thr : float)
    (ui k : option pystr) (idxs : list nat) :
  PrimFloat.ltb 0 thr = true ->
  forall (active : gset nat) s a' s',
  active ≠ ∅ ->
  phase1 Oracle complete embed env comps base thr ui k idxs active s = (inr a', s') ->
  a' ≠ ∅.
Proof.
  intros Hthr. induction idxs as [|i rest IH]; intros active s a' s' Hne E.
  - cbn in E. injection E as <- _. exact Hne.
  - cbn [phase1] in E. unfold bind in E.
    destruct (test_removal_similarity Oracle complete embed env comps base ui k i active s)
      as [[e|sim] s1] eqn:Et; [discriminate|].
    eapply IH; [|exact E].
    destruct (hoare_run _ _ _ _ _ (test_removal_log complete embed env comps base ui k i active) Et)
      as (evs & _ & [(Hemp & [= ->] & _)|(Hne' & _)]).
    + by rewrite (float_ltb_leb_swap _ _ Hthr).
    + by destruct (PrimFloat.leb thr sim).
Qed.

(** X5: with a threshold above 0.0, Phase 1 started from a non-empty
    active set ends with a non-empty one: the test of the last remaining
    component returns 0.0, which is below the threshold. *)
Theorem phase1_keeps_one {Oracle : Type}
    (complete : Oracle -> Client -> pystr -> option (pystr * Oracle))
    (embed : Oracle -> Client -> pystr -> option (list float * Oracle))
    (env : Env) (comps : list pystr) (base : list float) (thr : float)
    (ui k : option pystr) (idxs : list nat) (active : gset nat) (s : St Oracle) :
  PrimFloat.ltb 0 thr = true -> active ≠ ∅ ->
  match (phase1 Oracle complete embed env comps base thr ui k idxs active s).1 with
  | inr a' => a' ≠ ∅
  | inl _ => True
  end.
Proof.
  intros Hthr Hne.
  destruct (phase1 Oracle complete embed env comps base thr ui k idxs active s)
    as [[e|a'] s'] eqn:E; [done|].
  exact (phase1_nonempty complete embed env comps base thr ui k idxs Hthr active s a' s' Hne E).
Qed.

Lemma comp_at_elem (comps : list pystr) (i : nat) :
  (i < length comps)%nat -> comp_at comps i ∈ comps.
Proof.
  intros Hi. unfold comp_at. destruct (comps !! i) as [c|] eqn:Hc; simpl.
  - exact (list_elem_of_lookup_2 _ _ _ Hc).
  - apply lookup_ge_None in Hc. exfalso. unfold pystr in *. lia.
Qed.

Lemma map_comp_at_filter_seq (comps : list pystr) (P : nat -> Prop) `{!∀ x, Decision (P x)} :
  Forall (fun c => c ∈ comps) (map (comp_at comps) (filter P (seq 0 (length comps)))).
Proof.
  apply Forall_forall. intros c (i & -> & Hi)%list_elem_of_fmap.
  apply list_elem_of_filter in Hi as [_ Hi]. apply elem_of_seq in Hi.
  apply comp_at_elem. lia.
Qed.

(** X6: with a resolved threshold above 0.0, a successful analysis of a
    prompt with at least one component keeps at least one component. *)
Theorem run_keeps_one {Oracle : Type}
    (complete : Oracle -> Client -> pystr -> option (pystr * Oracle))
    (embed : Oracle -> Client -> pystr -> option (list float * Oracle))
    (parse_float : pystr -> option float) (env : Env)
    (prompt : pystr) (ui k : option pystr) (s : St Oracle) :
  PrimFloat.ltb 0 (get_similarity_threshold parse_float (SIMILARITY_THRESHOLD env)) = true ->
  match (run_stripe_analysis Oracle complete embed parse_float env prompt ui k s).1 with
  | inr res => total_components res ≠ 0%nat -> components_kept res ≠ []
  | inl _ => True
  end.
Proof.
  intros Hthr. unfold run_stripe_analysis.
  destruct (parse_components prompt) as [|c0 l0] eqn:Hp; [by cbn|].
  set (n := length (c0 :: l0)). unfold bind.
  destruct (call_model Oracle complete env (build_full_prompt prompt ui) k s)
    as [[e|bo] s1]; cbv beta iota; cbn [fst snd]; [done|].
  destruct (get_embedding Oracle embed env bo k s1) as [[e|base] s2];
    cbv beta iota; cbn [fst snd]; [done|].
  set (thr := get_similarity_threshold parse_float (SIMILARITY_THRESHOLD env)).
  destruct (phase1 Oracle complete embed env (c0 :: l0) base thr ui k
              (rev (seq 0 n)) (set_seq 0 n) s2) as [[e|a1] s3] eqn:E3;
    cbv beta iota; cbn [fst snd]; [done|].
  assert (Ha1 : a1 ≠ ∅).
  { eapply (phase1_nonempty complete embed env (c0 :: l0) base thr ui k); [exact Hthr| |exact E3].
    intros Hemp. assert (H0 : 0%nat ∈ (set_seq 0 n : gset nat))
      by (apply elem_of_set_seq; cbn; lia). set_solver. }
  destruct (hoare_run _ _ _ _ _ (phase1_log complete embed env (c0 :: l0) base thr ui k _ _) E3)
    as (ev3 & _ & (Hsub1 & _)).
  destruct (classify_components (c0 :: l0) (set_seq 0 n ∖ a1)) as [kept rem].
  destruct (validate_prompt Oracle complete embed env base ui k
              (build_improved_prompt kept prompt) s3) as [[e|vsim] s4];
    cbv beta iota; cbn [fst snd]; [done|].
  destruct (phase3 Oracle complete embed env (c0 :: l0) base thr ui k vsim
              (set_seq 0 n ∖ a1) a1 s4) as [[e|a'] s5] eqn:E5;
    cbv beta iota; cbn [fst snd]; [done|].
  assert (Hsub3 : a1 ⊆ a').
  { destruct (hoare_run _ _ _ _ _ (phase3_log complete embed env (c0 :: l0) base thr ui k _ _ _) E5)
      as (ev5 & _ & P5).
    destruct (_ && _); [by destruct P5|]. by destruct P5 as [[= ->] _]. }
  unfold ret; cbn [fst snd]. intros _.
  assert (HR : set_seq 0 n ∖ a' ⊆ set_seq 0 (length (c0 :: l0))) by set_solver.
  destruct (finish_spec (c0 :: l0) prompt _ HR) as (_ & -> & _).
  apply set_choose_L in Ha1 as [x Hx].
  assert (Hxn : (x < n)%nat) by (apply Hsub1, elem_of_set_seq in Hx; lia).
  assert (Hin : x ∈ filter (fun i => i ∉ set_seq 0 n ∖ a') (seq 0 (length (c0 :: l0)))).
  { apply list_elem_of_filter. split; [set_solver|]. apply elem_of_seq. lia. }
  intros Hnil. apply map_eq_nil in Hnil. rewrite Hnil in Hin. by apply not_elem_of_nil in Hin.
Qed.

(** X7: every entry of the kept and removed lists of a successful
    analysis is a non-empty stripped component, and the improved prompt
    is empty only for an empty prompt. *)
Theorem run_result_entries {Oracle : Type}
    (complete : Oracle -> Client -> pystr -> option (pystr * Oracle))
    (embed : Oracle -> Client -> pystr -> option (list float * Oracle))
    (parse_float : pystr -> option float) (env : Env)
    (prompt : pystr) (ui k : option pystr) (s : St Oracle) :
  match (run_stripe_analysis Oracle complete embed parse_float env prompt ui k s).1 with
  | inr res => Forall (fun c => c ≠ [] /\ strip c = c)
                 (components_kept res ++ components_removed res) /\
               (improved_prompt res = [] -> prompt = [])
  | inl _ => True
  end.
Proof.
  destruct (run_stripe_analysis Oracle complete embed parse_float env prompt ui k s)
    as [r s'] eqn:E. cbn [fst].
  destruct (hoare_run _ _ _ _ _ (run_log complete embed env parse_float prompt ui k) E)
    as (evs & _ & Hpost).
  unfold run_post in Hpost. destruct (parse_components prompt) as [|c0 l0] eqn:Hp.
  { destruct Hpost as [-> _]. split; [constructor|done]. }
  destruct r as [e|res]; [done|].
  destruct Hpost as (b & L1 & v & L3 & R1 & R & _ & _ & _ & _ & HR1 & _ & _ & _ & HR & ->).
  assert (Hsub : R ⊆ set_seq 0 (length (c0 :: l0))) by set_solver.
  destruct (finish_spec (c0 :: l0) prompt R Hsub) as (_ & Hk & Hr & _ & _ & _ & Hi).
  assert (Hparts : forall c, c ∈ c0 :: l0 -> c ≠ [] /\ strip c = c).
  { intros c Hc. rewrite <- Hp in Hc. exact (parse_components_parts prompt c Hc). }
  assert (Hkept : Forall (fun c => c ≠ [] /\ strip c = c) (components_kept (finish (c0 :: l0) prompt R))).
  { rewrite Hk. eapply Forall_impl; [apply map_comp_at_filter_seq|]. exact Hparts. }
  split.
  - apply Forall_app. split; [exact Hkept|].
    rewrite Hr. eapply Forall_impl; [apply map_comp_at_filter_seq|]. exact Hparts.
  - rewrite Hi. destruct (components_kept (finish (c0 :: l0) prompt R)) as [|c [|c' ks]];
      [done| |]; inversion Hkept as [|? ? [Hc _] _]; subst; cbn.
    + done.
    + intros Hnil. apply app_eq_nil in Hnil as [Hnil _]. done.
Qed.

(** ** The client of a run *)

(** A second resolution gives the client of the first one and leaves the
    cache as the first left it. *)
Lemma resolve_client_stable (env : Env) (k : option pystr) cl0 c cl' :
  resolve_client env k cl0 = (inr c, cl') -> resolve_client env k cl' = (inr c, cl').
Proof.
  unfold resolve_client. destruct (truthy k); [by intros [= <- <-]|].
  unfold get_client. destruct cl0 as [c0|]; [by intros [= -> <-]|].
  destruct (truthy (OPENROUTER_API_KEY env)); [by intros [= <- <-]|].
  destruct (truthy (OPENAI_API_KEY env)); [by intros [= <- <-]|done].
Qed.

Section OneClient.
Context {Oracle : Type}
        (complete : Oracle -> Client -> pystr -> option (pystr * Oracle))
        (embed : Oracle -> Client -> pystr -> option (list float * Oracle))
        (env : Env) (k : option pystr) (c : Client) (cl0 cl' : option Client).
Hypothesis Hres : resolve_client env k cl0 = (inr c, cl').

Lemma client_in_resolve (s : St Oracle) : client_in cl0 cl' s -> resolve_client env k (st_client s) = (inr c, cl').
Proof. intros [-> | ->]; [exact Hres|exact (resolve_client_stable _ _ _ _ _ Hres)]. Qed.

Lemma keeps_ret {A} (a : A) : keeps (ret (Oracle:=Oracle) a) (client_in cl0 cl') (uses_client c).
Proof. intros s Hs. split; [done|]. exists []. by rewrite app_nil_r. Qed.

Lemma keeps_bind {A B} (m : M Oracle A) (f : A -> M Oracle B) :
  keeps m (client_in cl0 cl') (uses_client c) -> (forall a, keeps (f a) (client_in cl0 cl') (uses_client c)) ->
  keeps (bind m f) (client_in cl0 cl') (uses_client c).
Proof.
  intros H1 H2 s Hs. unfold bind. destruct (H1 s Hs) as (Hs1 & e1 & Hl1 & HP1).
  destruct (m s) as [[e|a] s1]; cbn [fst snd] in *; [eauto|].
  destruct (H2 a s1 Hs1) as (Hs2 & e2 & Hl2 & HP2). split; [done|].
  exists (e1 ++ e2). rewrite Hl2, Hl1, app_assoc. split; [done|]. by apply Forall_app.
Qed.

Lemma keeps_call_model p : keeps (call_model Oracle complete env p k) (client_in cl0 cl') (uses_client c).
Proof.
  intros s Hs. unfold call_model, bind, resolveM. rewrite (client_in_resolve s Hs).
  cbn. destruct (complete (st_oracle s) c p) as [[o o']|]; cbn;
    (split; [by right|]); eexists; (split; [reflexivity|]); repeat constructor.
Qed.

Lemma keeps_get_embedding t : keeps (get_embedding Oracle embed env t k) (client_in cl0 cl') (uses_client c).
Proof.
  intros s Hs. unfold get_embedding, bind, resolveM. rewrite (client_in_resolve s Hs).
  cbn. destruct (embed (st_oracle s) c t) as [[v o']|]; cbn;
    (split; [by right|]); eexists; (split; [reflexivity|]); repeat constructor.
Qed.

Section Steps.
Variables (comps : list pystr) (base : list float) (thr : float) (ui : option pystr).

Lemma keeps_validate p :
  keeps (validate_prompt Oracle complete embed env base ui k p) (client_in cl0 cl') (uses_client c).
Proof.
  unfold validate_prompt. apply keeps_bind; [apply keeps_call_model|]. intros o.
  apply keeps_bind; [apply keeps_get_embedding|]. intros v. apply keeps_ret.
Qed.

Lemma keeps_test_removal i active :
  keeps (test_removal_similarity Oracle complete embed env comps base ui k i active)
    (client_in cl0 cl') (uses_client c).
Proof.
  unfold test_removal_similarity. destruct (py_sorted _); [apply keeps_ret|].
  apply keeps_bind; [apply keeps_call_model|]. intros o.
  apply keeps_bind; [apply keeps_get_embedding|]. intros v. apply keeps_ret.
Qed.

Lemma keeps_phase1 idxs : forall active,
  keeps (phase1 Oracle complete embed env comps base thr ui k idxs active) (client_in cl0 cl') (uses_client c).
Proof.
  induction idxs as [|i rest IH]; intros active; cbn [phase1]; [apply keeps_ret|].
  apply keeps_bind; [apply keeps_test_removal|]. intros sim. apply IH.
Qed.

Lemma keeps_recovery idxs : forall active,
  keeps (recovery Oracle complete embed env comps base thr ui k idxs active) (client_in cl0 cl') (uses_client c).
Proof.
  induction idxs as [|i rest IH]; intros active; cbn [recovery]; [apply keeps_ret|].
  apply keeps_bind; [apply keeps_validate|]. intros sim.
  destruct (PrimFloat.leb thr sim); [apply keeps_ret|apply IH].
Qed.

Lemma keeps_phase3 vsim R active :
  keeps (phase3 Oracle complete embed env comps base thr ui k vsim R active) (client_in cl0 cl') (uses_client c).
Proof. unfold phase3. destruct (_ && _); [apply keeps_recovery|apply keeps_ret]. Qed.
End Steps.

Lemma keeps_run parse_float prompt ui :
  keeps (run_stripe_analysis Oracle complete embed parse_float env prompt ui k) (client_in cl0 cl') (uses_client c).
Proof.
  unfold run_stripe_analysis. destruct (parse_components prompt); [apply keeps_ret|].
  apply keeps_bind; [apply keeps_call_model|]. intros o.
  apply keeps_bind; [apply keeps_get_embedding|]. intros base.
  apply keeps_bind; [apply keeps_phase1|]. intros a1.
  destruct (classify_components _ _) as [kept rem].
  apply keeps_bind; [apply keeps_validate|]. intros vsim.
  apply keeps_bind; [apply keeps_phase3|]. intros a'. apply keeps_ret.
Qed.
End OneClient.

(** X8: once the key of an analysis resolves (the per-call key, else the
    cached or the configured default client), every provider call of the
    analysis goes through that one client, and the process-wide client
    ends as that first resolution leaves it, or untouched. *)
Theorem run_single_client {Oracle : Type}
    (complete : Oracle -> Client -> pystr -> option (pystr * Oracle))
    (embed : Oracle -> Client -> pystr -> option (list float * Oracle))
    (parse_float : pystr -> option float) (env : Env)
    (prompt : pystr) (ui k : option pystr) (s : St Oracle) (c : Client) (cl' : option Client) :
  resolve_client env k (st_client s) = (inr c, cl') ->
  let s' := (run_stripe_analysis Oracle complete embed parse_float env prompt ui k s).2 in
  (exists evs, st_log s' = st_log s ++ evs /\ Forall (fun e => event_client e = c) evs) /\
  (st_client s' = st_client s \/ st_client s' = cl').
Proof.
  intros Hres s'.
  destruct (keeps_run complete embed env k c (st_client s) cl' Hres parse_float prompt ui s)
    as [Hinv Hlog]; [by left|].
  split; [exact Hlog|exact Hinv].
Qed.

(** X9: when the key of an analysis does not resolve (no per-call key, no
    cached client, neither environment key set), the analysis makes no
    provider call and leaves the cache empty: it raises the configuration
    error, or returns the empty result for a prompt without components. *)
Theorem run_without_credentials {Oracle : Type}
    (complete : Oracle -> Client -> pystr -> option (pystr * Oracle))
    (embed : Oracle -> Client -> pystr -> option (list float * Oracle))
    (parse_float : pystr -> option float) (env : Env)
    (prompt : pystr) (ui k : option pystr) (s : St Oracle) (e : Err) (cl' : option Client) :
  resolve_client env k (st_client s) = (inl e, cl') ->
  let r := run_stripe_analysis Oracle complete embed parse_float env prompt ui k s in
  st_log r.2 = st_log s /\ st_oracle r.2 = st_oracle s /\ st_client r.2 = None /\
  r.1 = (if bool_decide (parse_components prompt = []) then inr (build_analysis_result 0%float prompt [] [] 0)
         else inl ConfigError).
Proof.
  intros Hres r. subst r. unfold run_stripe_analysis.
  assert (He : e = ConfigError /\ cl' = None /\ st_client s = None).
  { revert Hres. unfold resolve_client, get_client.
    destruct (truthy k); [done|]. destruct (st_client s); [done|].
    destruct (truthy (OPENROUTER_API_KEY env)); [done|].
    destruct (truthy (OPENAI_API_KEY env)); [done|]. by intros [= <- <-]. }
  destruct He as (-> & -> & Hc).
  destruct (parse_components prompt) as [|c0 l0]; [done|].
  unfold call_model, resolveM, bind. cbv beta. rewrite Hres. cbn. done.
Qed.

(** X10: [get_client] memoises: a successful call returns the client it
    stores in the process-wide cache ([OPENROUTER_API_KEY] preferred over
    [OPENAI_API_KEY] when the cache is empty), and every later call
    returns that client whatever the environment then holds; a failing
    call raises the configuration error and leaves the cache empty. *)
Theorem get_client_memo (env : Env) (cache : option Client) :
  match get_client env cache with
  | (inr c, cache') =>
      cache' = Some c /\ (cache = None \/ cache = cache') /\
      (forall env', get_client env' cache' = (inr c, cache')) /\
      (cache = None -> truthy (OPENROUTER_API_KEY env) = true ->
       c = OpenRouterClient (default [] (OPENROUTER_API_KEY env)))
  | (inl e, cache') => e = ConfigError /\ cache = None /\ cache' = None
  end.
Proof.
  unfold get_client at 1. destruct cache as [c0|].
  - split; [done|]. split; [by right|]. split; [done|]. done.
  - destruct (truthy (OPENROUTER_API_KEY env)) eqn:E1.
    + split; [done|]. split; [by left|]. split; [done|]. done.
    + destruct (truthy (OPENAI_API_KEY env)); [|done].
      split; [done|]. split; [by left|]. split; [done|]. intros _ ?; congruence.
Qed.

(** ** Text without sentence ends *)

Lemma sentence_split_go_noend (s cur : pystr) :
  Forall (fun c => is_sentence_end c = false) s ->
  sentence_split_go s false false cur = [rev cur ++ s].
Proof.
  revert cur. induction s as [|c s IH]; intros cur Hs; cbn [sentence_split_go].
  - by rewrite app_nil_r.
  - inversion Hs as [|? ? Hc Hr]; subst. rewrite Hc, IH by done.
    cbn [rev]. by rewrite <- app_assoc.
Qed.

Lemma lstrip_sublist_chars (s : pystr) x : x ∈ lstrip s -> x ∈ s.
Proof.
  induction s as [|c s IH]; [done|]. simpl. destruct (py_isspace c); [|done].
  intros Hx. apply elem_of_cons. right. by apply IH.
Qed.

Lemma strip_chars (s : pystr) x : x ∈ strip s -> x ∈ s.
Proof.
  unfold strip, rstrip. intros Hx. apply lstrip_sublist_chars.
  rewrite elem_of_rev in Hx. apply lstrip_sublist_chars in Hx. by rewrite elem_of_rev in Hx.
Qed.

(** X11: a non-blank prompt with no line break and none of [.], [!], [?]
    is a single component, the stripped prompt. *)
Theorem parse_components_single (prompt : pystr) :
  newline ∉ prompt ->
  Forall (fun c => is_sentence_end c = false) prompt ->
  strip prompt ≠ [] ->
  parse_components prompt = [strip prompt].
Proof.
  intros Hnl Hend Hne. unfold parse_components.
  assert (Hsplit : py_split newline prompt = [prompt]).
  { unfold py_split. rewrite <- (app_nil_r prompt) at 1.
    rewrite split_go_nosep by done. cbn. by rewrite app_nil_r, rev_involutive. }
  rewrite Hsplit, filter_cons_True by done. cbn [filter list_filter map flat_map].
  assert (Hl : line_components (strip prompt) = [strip prompt]).
  { unfold line_components. destruct (list_marker_match (strip prompt)); [done|].
    unfold sentence_split. rewrite sentence_split_go_noend.
    - cbn [rev app map]. rewrite strip_idem, filter_cons_True by done. done.
    - apply Forall_forall. intros x Hx. rewrite Forall_forall in Hend.
      by apply Hend, strip_chars. }
  rewrite Hl. done.
Qed.

(** ** Witnesses *)

Lemma phase1_keeps_one_witness :
  PrimFloat.ltb 0 0.92 = true /\ ({[0%nat; 1%nat]} : gset nat) ≠ ∅ /\
  match (phase1 (list (list float)) script_complete script_embed (test_env None)
           [lit "A."; lit "B."] e1 0.92%float None None [1%nat; 0%nat] {[0%nat; 1%nat]}
           (mkSt [e1; e1] None [])).1 with
  | inr a' => a' ≠ ∅
  | inl _ => True
  end.
Proof.
  assert (Ht : PrimFloat.ltb 0 0.92 = true) by reflexivity.
  assert (Hne : ({[0%nat; 1%nat]} : gset nat) ≠ ∅)
    by (apply (bool_decide_unpack (({[0%nat; 1%nat]} : gset nat) ≠ ∅)); vm_compute; reflexivity).
  split; [exact Ht|]. split; [exact Hne|].
  exact (phase1_keeps_one script_complete script_embed (test_env None)
           [lit "A."; lit "B."] e1 0.92%float None None [1%nat; 0%nat] {[0%nat; 1%nat]}
           (mkSt [e1; e1] None []) Ht Hne).
Defined.

Lemma run_keeps_one_witness :
  PrimFloat.ltb 0 (get_similarity_threshold script_parse (SIMILARITY_THRESHOLD (test_env None))) = true /\
  match (run_script None [e1; e1; e1; e2] (lit "A. B.")).1 with
  | inr res => total_components res ≠ 0%nat -> components_kept res ≠ []
  | inl _ => True
  end.
Proof.
  assert (Ht : PrimFloat.ltb 0 (get_similarity_threshold script_parse
                                  (SIMILARITY_THRESHOLD (test_env None))) = true) by (vm_compute; reflexivity).
  split; [exact Ht|].
  exact (run_keeps_one script_complete script_embed script_parse (test_env None)
           (lit "A. B.") None None (mkSt [e1; e1; e1; e2] None []) Ht).
Defined.

Lemma run_single_client_witness :
  resolve_client (test_env None) None None =
    (inr (OpenAIClient (lit "sk-test")), Some (OpenAIClient (lit "sk-test"))) /\
  let s' := (run_script None [e1; e1; e1; e2] (lit "A. B.")).2 in
  (exists evs, st_log s' = [] ++ evs /\
     Forall (fun e => event_client e = OpenAIClient (lit "sk-test")) evs) /\
  (st_client s' = None \/ st_client s' = Some (OpenAIClient (lit "sk-test"))).
Proof.
  assert (Hr : resolve_client (test_env None) None None =
                 (inr (OpenAIClient (lit "sk-test")), Some (OpenAIClient (lit "sk-test"))))
    by reflexivity.
  split; [exact Hr|].
  exact (run_single_client script_complete script_embed script_parse (test_env None)
           (lit "A. B.") None None (mkSt [e1; e1; e1; e2] None []) _ _ Hr).
Defined.

Lemma run_without_credentials_witness :
  let env0 := {| OPENROUTER_API_KEY := None; OPENAI_API_KEY := None;
                 SIMILARITY_THRESHOLD := None |} in
  resolve_client env0 None None = (inl ConfigError, None) /\
  let r := run_stripe_analysis (list (list float)) script_complete script_embed script_parse
             env0 (lit "A. B.") None None (mkSt [e1] None []) in
  st_log r.2 = [] /\ st_oracle r.2 = [e1] /\ st_client r.2 = None /\
  r.1 = (if bool_decide (parse_components (lit "A. B.") = []) then
           inr (build_analysis_result 0%float (lit "A. B.") [] [] 0)
         else inl ConfigError).
Proof.
  intros env0.
  assert (Hr : resolve_client env0 None None = (inl ConfigError, None)) by reflexivity.
  split; [exact Hr|].
  exact (run_without_credentials script_complete script_embed script_parse env0
           (lit "A. B.") None None (mkSt [e1] None []) ConfigError None Hr).
Defined.

Lemma parse_components_single_witness :
  (newline ∉ lit "  no punctuation here ") /\
  Forall (fun c => is_sentence_end c = false) (lit "  no punctuation here ") /\
  strip (lit "  no punctuation here ") ≠ [] /\
  parse_components (lit "  no punctuation here ") = [strip (lit "  no punctuation here ")].
Proof.
  assert (H1 : newline ∉ lit "  no punctuation here ")
    by (apply (bool_decide_unpack (newline ∉ lit "  no punctuation here "));
        vm_compute; reflexivity).
  assert (H2 : Forall (fun c => is_sentence_end c = false) (lit "  no punctuation here "))
    by (apply (bool_decide_unpack (Forall (fun c => is_sentence_end c = false)
                                     (lit "  no punctuation here ")));
        vm_compute; reflexivity).
  assert (H3 : strip (lit "  no punctuation here ") ≠ [])
    by (apply (bool_decide_unpack (strip (lit "  no punctuation here ") ≠ []));
        vm_compute; reflexivity).
  split; [exact H1|]. split; [exact H2|]. split; [exact H3|].
  exact (parse_components_single _ H1 H2 H3).
Defined.
